(** * A shallow embedding of [rmg/model.py] and [rmgpy/qm/reaction.py] (RMG-Py)

    The core/edge reaction model, its flux-based validity screening, the
    profile models, the ideal-gas equation of state, the reaction-system
    constructor, the batch-reactor residual and simulation loop, and the
    bounds-matrix editing of the quantum-mechanics reaction module.  Python floats are modelled as real numbers; Python
    exceptions as the [Err] branch of a small error type. *)

From Stdlib Require Import String Reals Lra List Bool Arith Lia ZArith.
Import ListNotations.

(** ** Python runtime: exceptions and list helpers *)

Inductive exn :=
| ValueError
| KeyError
| IndexError
| TypeError
| AttributeError
| InvalidReactionSystemException (label : string).

Inductive except (A : Type) :=
| Ok (a : A)
| Err (e : exn).
Arguments Ok {A} a.
Arguments Err {A} e.

Definition bind {A B} (m : except A) (k : A -> except B) : except B :=
  match m with Ok a => k a | Err e => Err e end.

Notation "x <- m ;; k" := (bind m (fun x => k))
  (at level 61, m at next level, right associativity).

(** Python's [list.remove]: drop the first element equal to [x].  Every call
    site in [model.py] tests membership first, so the absent case (where
    Python raises) is never reached; the list is then returned unchanged. *)
Fixpoint remove_first {A} (eqb : A -> A -> bool) (x : A) (l : list A) : list A :=
  match l with
  | [] => []
  | y :: r => if eqb x y then r else y :: remove_first eqb x r
  end.

(** Python's built-in [sum]: start at 0 and add from left to right. *)
Definition py_sum (l : list R) : R := fold_left Rplus l 0%R.

(** ** Species and reactions

    Species are opaque identities (here: natural numbers); reactions carry an
    identity and their ordered reactant and product lists. *)

Definition Species := nat.

Record Reaction := mkReaction {
  rxn_id : nat;
  reactants : list Species;
  products : list Species
}.

Definition Reaction_eq_dec (a b : Reaction) : {a = b} + {a <> b}.
Proof. decide equality; apply list_eq_dec, Nat.eq_dec || apply Nat.eq_dec. Defined.

Definition reaction_eqb (a b : Reaction) : bool :=
  if Reaction_eq_dec a b then true else false.

(** Python's [x in lst] for species and for reactions. *)
Definition spec_in (s : Species) (l : list Species) : bool := existsb (Nat.eqb s) l.
Definition rxn_in (r : Reaction) (l : list Reaction) : bool := existsb (reaction_eqb r) l.

(** ** [ReactionModel] and [CoreEdgeReactionModel] *)

Record ReactionModel := mkReactionModel {
  species : list Species;
  reactions : list Reaction
}.

Record CoreEdgeReactionModel := mkCoreEdge {
  core : ReactionModel;
  edge : ReactionModel;
  fluxTolerance : R;
  absoluteTolerance : R;
  relativeTolerance : R
}.

(** [CoreEdgeReactionModel.__init__] with no arguments. *)
Definition CoreEdgeReactionModel_new : CoreEdgeReactionModel :=
  mkCoreEdge (mkReactionModel [] []) (mkReactionModel [] []) 1%R (1/100000000)%R (1/10000)%R.

Definition set_core (m : CoreEdgeReactionModel) (c : ReactionModel) :=
  mkCoreEdge c (edge m) (fluxTolerance m) (absoluteTolerance m) (relativeTolerance m).
Definition set_edge (m : CoreEdgeReactionModel) (e : ReactionModel) :=
  mkCoreEdge (core m) e (fluxTolerance m) (absoluteTolerance m) (relativeTolerance m).

(** [all(spec in core for spec in rxn.reactants + rxn.products)], the
    [allCore] loop of [addSpeciesToCore]. *)
Definition allCore (coreSpecies : list Species) (rxn : Reaction) : bool :=
  forallb (fun s => spec_in s coreSpecies) (reactants rxn) &&
  forallb (fun s => spec_in s coreSpecies) (products rxn).

(** [addSpeciesToEdge] *)
Definition addSpeciesToEdge (spec : Species) (m : CoreEdgeReactionModel) :=
  set_edge m (mkReactionModel (species (edge m) ++ [spec]) (reactions (edge m))).

(** [addReactionToCore] *)
Definition addReactionToCore (rxn : Reaction) (m : CoreEdgeReactionModel) :=
  let m1 := set_core m (mkReactionModel (species (core m)) (reactions (core m) ++ [rxn])) in
  if rxn_in rxn (reactions (edge m1))
  then set_edge m1 (mkReactionModel (species (edge m1))
                      (remove_first reaction_eqb rxn (reactions (edge m1))))
  else m1.

(** [addReactionToEdge] *)
Definition addReactionToEdge (rxn : Reaction) (m : CoreEdgeReactionModel) :=
  set_edge m (mkReactionModel (species (edge m)) (reactions (edge m) ++ [rxn])).

(** [addSpeciesToCore]: append to the core; if the species was an edge
    species, remove it there, collect the edge reactions that now only
    involve core species, and move them to the core. *)
Definition addSpeciesToCore (spec : Species) (m : CoreEdgeReactionModel) :=
  let m1 := set_core m (mkReactionModel (species (core m) ++ [spec]) (reactions (core m))) in
  if spec_in spec (species (edge m1)) then
    let m2 := set_edge m1 (mkReactionModel (remove_first Nat.eqb spec (species (edge m1)))
                                           (reactions (edge m1))) in
    let rxnList := filter (allCore (species (core m2))) (reactions (edge m2)) in
    fold_left (fun st rxn => addReactionToCore rxn st) rxnList m2
  else m1.

(** Adds each species of [l] that is neither an edge nor a core species to
    the edge (the loops over [rxn.reactants] and [rxn.products]). *)
Definition addMissingToEdge (l : list Species) (m : CoreEdgeReactionModel) :=
  fold_left (fun st spec =>
    if negb (spec_in spec (species (edge st))) && negb (spec_in spec (species (core st)))
    then addSpeciesToEdge spec st else st) l m.

Section Generation.

(** The reactivity flag of a species and the kinetics database
    ([reaction.kineticsDatabase.getReactions]), both external collaborators. *)
Variable reactive : Species -> bool.
Variable getReactions : list Species -> list Reaction.

(** [initialize] *)
Definition initialize_one (m : CoreEdgeReactionModel) (species1 : Species) :=
  let rxnList :=
    if reactive species1
    then getReactions [species1] ++
         flat_map (fun species2 => getReactions [species1; species2]) (species (core m))
    else [] in
  let m1 := addSpeciesToCore species1 m in
  fold_left (fun st rxn =>
      addReactionToEdge rxn (addMissingToEdge (products rxn) (addMissingToEdge (reactants rxn) st)))
    rxnList m1.

Definition initialize (coreSpecies : list Species) (m : CoreEdgeReactionModel) :=
  fold_left initialize_one coreSpecies m.

(** [enlarge] *)
Definition enlarge_add (st : CoreEdgeReactionModel) (rxn : Reaction) :=
  let '(allSpeciesInCore, st1) :=
    fold_left (fun '(b, st) spec =>
        let b' := b && spec_in spec (species (core st)) in
        (b', addMissingToEdge [spec] st))
      (reactants rxn ++ products rxn) (true, st) in
  if allSpeciesInCore then addReactionToCore rxn st1 else addReactionToEdge rxn st1.

Definition enlarge (newSpecies : Species) (m : CoreEdgeReactionModel) :=
  let rxnList :=
    getReactions [newSpecies] ++
    flat_map (fun coreSpecies =>
        if reactive coreSpecies then getReactions [newSpecies; coreSpecies] else [])
      (species (core m)) in
  let m1 := addSpeciesToCore newSpecies m in
  fold_left enlarge_add rxnList m1.

End Generation.

(** ** Dictionaries as insertion-ordered association lists *)

Section Assoc.
Context {K V : Type} (keqb : K -> K -> bool).

(** [d[k] = v]: overwrite in place, or append a new key. *)
Fixpoint assoc_set (d : list (K * V)) (k : K) (v : V) : list (K * V) :=
  match d with
  | [] => [(k, v)]
  | (k', v') :: r => if keqb k k' then (k', v) :: r else (k', v') :: assoc_set r k v
  end.

(** [d[k]], with [None] where Python raises [KeyError]. *)
Fixpoint assoc_get (d : list (K * V)) (k : K) : option V :=
  match d with
  | [] => None
  | (k', v') :: r => if keqb k k' then Some v' else assoc_get r k
  end.

End Assoc.

(** [max(lst)] over [(float, key)] tuples, compared lexicographically as
    Python compares tuples; [ValueError] on the empty list.  CPython's [max]
    keeps the running maximum and replaces it by a strictly greater item. *)
Definition tuple_gt (a b : R * nat) : bool :=
  if Req_dec_T (fst a) (fst b) then Nat.ltb (snd b) (snd a)
  else if Rlt_dec (fst b) (fst a) then true else false.

Definition py_max (l : list (R * nat)) : except (R * nat) :=
  match l with
  | [] => Err ValueError
  | x :: r => Ok (fold_left (fun mx it => if tuple_gt it mx then it else mx) r x)
  end.

(** [enumerate(l)] shifted by [k]: the pairs [(value, i + k)]. *)
Fixpoint enumerate_from (k : nat) (l : list R) : list (R * nat) :=
  match l with
  | [] => []
  | v :: r => (v, k) :: enumerate_from (S k) r
  end.

(** ** [CoreEdgeReactionModel.isValid] *)

Section Validity.

(** [rxn.getRate(T, P, conc)], supplied by the kinetics layer. *)
Variable getRate : Reaction -> R -> R -> list (Species * R) -> R.

Definition specFlux_sub (d : list (Species * R)) (s : Species) (f : R) :=
  match assoc_get Nat.eqb d s with
  | Some old => assoc_set Nat.eqb d s (old - f)%R
  | None => assoc_set Nat.eqb d s (- f)%R
  end.

Definition specFlux_add (d : list (Species * R)) (s : Species) (f : R) :=
  match assoc_get Nat.eqb d s with
  | Some old => assoc_set Nat.eqb d s (old + f)%R
  | None => assoc_set Nat.eqb d s f
  end.

Definition rxnFlux (m : CoreEdgeReactionModel) (T P : R) (conc : list (Species * R)) :=
  fold_left (fun d rxn => assoc_set reaction_eqb d rxn (getRate rxn T P conc))
    (reactions (core m)) [].

Definition charFlux_of (m : CoreEdgeReactionModel) (T P : R) (conc : list (Species * R)) : R :=
  (fluxTolerance m * sqrt (py_sum (map (fun kv => (snd kv) ^ 2) (rxnFlux m T P conc))))%R.

(** [rxnFlux[rxn]]; every core reaction is a key of [rxnFlux], so the
    default is never used (see [rxnFlux_lookup] below). *)
Definition rxnFlux_at (d : list (Reaction * R)) (rxn : Reaction) : R :=
  match assoc_get reaction_eqb d rxn with Some f => f | None => 0%R end.

Definition specFlux_rxn (m : CoreEdgeReactionModel) (fl : list (Reaction * R))
    (d : list (Species * R)) (rxn : Reaction) :=
  let d1 := fold_left (fun d reactant =>
      if spec_in reactant (species (edge m)) then specFlux_sub d reactant (rxnFlux_at fl rxn) else d)
      (reactants rxn) d in
  fold_left (fun d product =>
      if spec_in product (species (edge m)) then specFlux_add d product (rxnFlux_at fl rxn) else d)
    (products rxn) d1.

Definition specFlux (m : CoreEdgeReactionModel) (T P : R) (conc : list (Species * R)) :=
  fold_left (specFlux_rxn m (rxnFlux m T P conc)) (reactions (core m)) [].

Definition isValid (m : CoreEdgeReactionModel) (T P : R) (conc : list (Species * R)) : except bool :=
  let charFlux := charFlux_of m T P conc in
  mx <- py_max (map (fun kv => (snd kv, fst kv)) (specFlux m T P conc)) ;;
  if Rlt_dec charFlux (fst mx) then Ok false else Ok true.

(** ** [BatchReactor.isModelValid] *)

(** Modelled from the spec: [Reaction.getStoichiometricCoefficient] (in
    [rmg/reaction.py], not part of this source) -- the number of times the
    species occurs among the products minus the number of times it occurs
    among the reactants: negative when net-consumed, positive when
    net-produced, zero when absent. *)
Definition getStoichiometricCoefficient (rxn : Reaction) (spec : Species) : Z :=
  (Z.of_nat (count_occ Nat.eq_dec (products rxn) spec) -
   Z.of_nat (count_occ Nat.eq_dec (reactants rxn) spec))%Z.

(** [model.getLists()] *)
Definition speciesList (m : CoreEdgeReactionModel) := species (core m) ++ species (edge m).
Definition reactionList (m : CoreEdgeReactionModel) := reactions (core m) ++ reactions (edge m).

(** The stoichiometry matrix assembled at the start of [simulate]: one row
    per species (core, then edge), one column per reaction (core, then edge). *)
Definition stoichiometryMatrix (m : CoreEdgeReactionModel) : list (list R) :=
  map (fun spec => map (fun rxn => IZR (getStoichiometricCoefficient rxn spec)) (reactionList m))
    (speciesList m).

(** [Ci[spec] = Ni[i] / V] over [enumerate(model.core.species)]. *)
Fixpoint concentrations (sp : list Species) (Ni : list R) (V : R) (d : list (Species * R))
  : except (list (Species * R)) :=
  match sp, Ni with
  | [], _ => Ok d
  | s :: sp', n :: Ni' => concentrations sp' Ni' V (assoc_set Nat.eqb d s (n / V)%R)
  | _ :: _, [] => Err IndexError
  end.

(** [BatchReactor.getReactionRates], through [CoreEdgeReactionModel.getReactionRates]. *)
Definition getReactionRates (P V T : R) (Ni : list R) (m : CoreEdgeReactionModel) : except (list R) :=
  Ci <- concentrations (species (core m)) Ni V [] ;;
  Ok (map (fun rxn => getRate rxn T P Ci) (reactionList m)).

(** [numpy.dot(matrix, vector)]; a row of the wrong length raises [ValueError]. *)
Definition dot_row (row v : list R) : except R :=
  if Nat.eqb (length row) (length v)
  then Ok (py_sum (map (fun ab => (fst ab * snd ab)%R) (combine row v)))
  else Err ValueError.

Fixpoint mat_vec (M : list (list R)) (v : list R) : except (list R) :=
  match M with
  | [] => Ok []
  | row :: M' => x <- dot_row row v ;; r <- mat_vec M' v ;; Ok (x :: r)
  end.

Definition isModelValid (m : CoreEdgeReactionModel) (P V T : R) (Ni : list R)
    (stoichiometry : list (list R)) (t : R) : except (bool * option Species) :=
  let spl := speciesList m in
  rxnRates <- getReactionRates P V T Ni m ;;
  let charFlux := (fluxTolerance m *
      sqrt (py_sum (map (fun x => x ^ 2) (firstn (length (reactions (core m))) rxnRates))))%R in
  dNidt <- mat_vec stoichiometry rxnRates ;;
  let ncore := length (species (core m)) in
  mx <- py_max (enumerate_from ncore (skipn ncore dNidt)) ;;
  if Rlt_dec charFlux (fst mx) then
    match nth_error spl (snd mx) with
    | Some s => Ok (false, Some s)
    | None => Err IndexError
    end
  else Ok (true, None).

End Validity.

(** ** Profile models *)

Module TemperatureModel.

Record t := mk { type_ : string; temperatures : list (list R) }.

(** [__init__] *)
Definition new : t := mk "" [].

Definition isIsothermal (tm : t) : bool := String.eqb (type_ tm) "isothermal".

Definition setIsothermal (temperature : R) (tm : t) : t := mk "isothermal" [[0%R; temperature]].

(** [getTemperature]: [self.temperatures[0][1]] for the isothermal model,
    [None] otherwise. *)
Definition getTemperature (tm : t) (time : R) : except (option R) :=
  if isIsothermal tm then
    match nth_error (temperatures tm) 0 with
    | Some row => match nth_error row 1 with Some v => Ok (Some v) | None => Err IndexError end
    | None => Err IndexError
    end
  else Ok None.

End TemperatureModel.

Module PressureModel.

Record t := mk { type_ : string; pressures : list (list R) }.

Definition new : t := mk "" [].

Definition isIsobaric (pm : t) : bool := String.eqb (type_ pm) "isobaric".

Definition setIsobaric (pressure : R) (pm : t) : t := mk "isobaric" [[0%R; pressure]].

Definition getPressure (pm : t) (time : R) : except (option R) :=
  if isIsobaric pm then
    match nth_error (pressures pm) 0 with
    | Some row => match nth_error row 1 with Some v => Ok (Some v) | None => Err IndexError end
    | None => Err IndexError
    end
  else Ok None.

End PressureModel.

(** ** [ReactionSystem] and [BatchReactor] *)

Section Reactor.

(** Volume models have no class in this source; any object may be passed. *)
Variable VolumeModel : Type.

Record ReactionSystem := mkReactionSystem {
  temperatureModel : option TemperatureModel.t;
  pressureModel : option PressureModel.t;
  volumeModel : option VolumeModel;
  initialConcentration : list (Species * R)
}.

Definition setModels_message : string :=
  "Attempted to specify temperature, pressure, and volume models; can only specify two of these at a time.".

(** [ReactionSystem.__init__], which calls [setModels] and then stores
    [initialConcentration or {}]. *)
Definition ReactionSystem_new (tm : option TemperatureModel.t) (pm : option PressureModel.t)
    (vm : option VolumeModel) (ic : option (list (Species * R))) : except ReactionSystem :=
  match tm, pm, vm with
  | Some _, Some _, Some _ => Err (InvalidReactionSystemException setModels_message)
  | _, _, _ =>
      Ok (mkReactionSystem tm pm vm (match ic with Some d => d | None => [] end))
  end.

(** [BatchReactor.__init__] delegates to [ReactionSystem.__init__]. *)
Definition BatchReactor_new := ReactionSystem_new.

Variable getRate : Reaction -> R -> R -> list (Species * R) -> R.

(** [scipy.integrate.odeint(self.getResidual, y, (t0, tf), atol=..., rtol=...)]:
    the last row of the solution and [info['tcur'][-1]]. *)
Variable integrate : list R -> R -> R -> R -> R -> list R * R.

(** The [while t0 < 1.0] loop of [simulate].  Besides the result it returns
    the integration spans [(t0, tf)] it hands to the integrator, in order.
    The fuel bounds the number of iterations; [None] means it ran out. *)
Fixpoint simulate_loop (m : CoreEdgeReactionModel) (stoichiometry : list (list R)) (y0 : list R)
    (fuel : nat) (t0 tf : R) (y : list R)
  : option (except (bool * option Species) * list (R * R)) :=
  match fuel with
  | O => None
  | S fuel' =>
    if Rlt_dec t0 1%R then
      let '(y', tcur) := integrate y t0 tf (absoluteTolerance m) (relativeTolerance m) in
      let span := (t0, tf) in
      let valid :=
        match y' with
        | P :: V :: T :: Ni => isModelValid getRate m P V T Ni stoichiometry tf
        | _ => Err ValueError
        end in
      match valid with
      | Err e => Some (Err e, [span])
      | Ok (false, newSpecies) => Some (Ok (false, newSpecies), [span])
      | Ok (true, _) =>
        match nth_error y' 3, nth_error y0 3 with
        | Some a, Some a0 =>
          if Rlt_dec a (1 / 10 * a0)%R then Some (Ok (true, None), [span])
          else match simulate_loop m stoichiometry y0 fuel' tf (tcur * (11 / 10))%R y' with
               | Some (r, spans) => Some (r, span :: spans)
               | None => None
               end
        | _, _ => Some (Err IndexError, [span])
        end
      end
    else Some (Ok (true, None), [])
  end.

(** [float(x)] of a profile value: [TypeError] on [None]. *)
Definition py_float (v : except (option R)) : except R :=
  match v with Ok (Some r) => Ok r | Ok None => Err TypeError | Err e => Err e end.

(** [BatchReactor.simulate] *)
Definition simulate (rs : ReactionSystem) (m : CoreEdgeReactionModel) (fuel : nat)
  : option (except (bool * option Species) * list (R * R)) :=
  let stoichiometry := stoichiometryMatrix m in
  let init :=
    P <- (match pressureModel rs with
          | Some pm => py_float (PressureModel.getPressure pm 0%R)
          | None => Err AttributeError end) ;;
    T <- (match temperatureModel rs with
          | Some tm => py_float (TemperatureModel.getTemperature tm 0%R)
          | None => Err AttributeError end) ;;
    Ok (P, T) in
  match init with
  | Err e => Some (Err e, [])
  | Ok (P, T) =>
    let V := 1%R in
    let Ni := map (fun spec =>
        match assoc_get Nat.eqb (initialConcentration rs) spec with
        | Some c => (c * V)%R
        | None => 0%R
        end) (species (core m)) in
    match isModelValid getRate m P V T Ni stoichiometry 0%R with
    | Err e => Some (Err e, [])
    | Ok (false, newSpecies) => Some (Ok (false, newSpecies), [])
    | Ok (true, _) =>
      let y := [P; V; T] ++ Ni in
      simulate_loop m stoichiometry y fuel (1 / 10 ^ 20)%R (1 / 10 ^ 20 * (11 / 10))%R y
    end
  end.

End Reactor.

(** ** [IdealGas], the equation of state *)

(** Real division is total while Python raises [ZeroDivisionError] (or
    numpy returns an infinity) on a zero denominator; the properties proved
    below keep every denominator nonzero. *)
Module IdealGas.

(** The class has no attributes. *)
Inductive t := mk.

(** The [N] argument of the [getd?dNi] methods: a list (or array) of mole
    amounts, or a dictionary from species to mole amounts. *)
Inductive Moles :=
| NList (l : list R)
| NDict (d : list (Species * R)).

Section EOS.

(** [constants.R], the gas constant of a module outside this source. *)
Variable gas_R : R.

Definition getTemperature (P V : R) (N : list R) : R := (P * V / (py_sum N * gas_R))%R.

Definition getPressure (T V : R) (N : list R) : R := (py_sum N * gas_R * T / V)%R.

Definition getVolume (T P : R) (N : list R) : R := (py_sum N * gas_R * T / P)%R.

End EOS.

Definition getdPdV (P V T : R) (N : list R) : R := (- P / V)%R.
Definition getdPdT (P V T : R) (N : list R) : R := (P / T)%R.
Definition getdVdT (P V T : R) (N : list R) : R := (V / T)%R.
Definition getdVdP (P V T : R) (N : list R) : R := (1 / getdPdV P V T N)%R.
Definition getdTdP (P V T : R) (N : list R) : R := (1 / getdPdT P V T N)%R.
Definition getdTdV (P V T : R) (N : list R) : R := (1 / getdVdT P V T N)%R.

(** The index (or key) [i] is not used by these three methods. *)
Definition getdPdNi {I : Type} (P V T : R) (N : Moles) (i : I) : R :=
  match N with NDict d => (P / py_sum (map snd d))%R | NList l => (P / py_sum l)%R end.
Definition getdVdNi {I : Type} (P V T : R) (N : Moles) (i : I) : R :=
  match N with NDict d => (V / py_sum (map snd d))%R | NList l => (V / py_sum l)%R end.
Definition getdTdNi {I : Type} (P V T : R) (N : Moles) (i : I) : R :=
  match N with NDict d => (- T / py_sum (map snd d))%R | NList l => (- T / py_sum l)%R end.

End IdealGas.

(** [N[i] = x] on a list of mole amounts (an index in range). *)
Fixpoint list_set (l : list R) (i : nat) (x : R) : list R :=
  match l, i with
  | [], _ => []
  | _ :: r, O => x :: r
  | v :: r, S i' => v :: list_set r i' x
  end.

(** ** [BatchReactor.getResidual] *)

Section Residual.

Variable getRate : Reaction -> R -> R -> list (Species * R) -> R.

(** [self.equationOfState] is an attribute no constructor of this source
    sets: [None] while it was never assigned.  The slices of the numpy
    arrays are [firstn]; [numpy.dot] is [mat_vec] and [dot_row]. *)
Definition getResidual (equationOfState : option IdealGas.t) (y : list R) (t : R)
    (m : CoreEdgeReactionModel) (stoichiometry : list (list R)) : except (list R) :=
  match y with
  | P :: V :: T :: Ni =>
    rxnRate <- getReactionRates getRate P V T Ni m ;;
    let ncoreSp := length (species (core m)) in
    let ncoreRxn := length (reactions (core m)) in
    dNidt <- mat_vec (map (firstn ncoreRxn) (firstn ncoreSp stoichiometry))
                     (firstn ncoreRxn rxnRate) ;;
    let dTdt := 0%R in
    let dPdt := 0%R in
    match equationOfState with
    | None => Err AttributeError
    | Some _ =>
      let dVdP := IdealGas.getdVdP P V T Ni in
      let dVdT := IdealGas.getdVdT P V T Ni in
      let dVdNi := map (fun i => IdealGas.getdVdNi P V T (IdealGas.NList Ni) i) Ni in
      d <- dot_row dVdNi dNidt ;;
      let dVdt := (dVdP * dPdt + dVdT * dTdt + d)%R in
      Ok ([dPdt; dVdt; dTdt] ++ dNidt)
    end
  | _ => Err ValueError
  end.

End Residual.

(** ** The bounds-matrix helpers of [rmgpy/qm/reaction.py]

    [QMReaction.setLimits] and [QMReaction.bmPreEdit] (neither uses
    [self]).  Atom indices are sorting labels, natural numbers; printing is
    not modelled. *)

Module QMReaction.

(** An RDKit bounds matrix: a square numpy array, upper distance limits
    above the diagonal, lower limits below it. *)
Record SqMatrix := mkSq { dim : nat; entry : nat -> nat -> R }.

Definition mset (bm : SqMatrix) (a b : nat) (v : R) : SqMatrix :=
  mkSq (dim bm) (fun x y => if Nat.eqb x a && Nat.eqb y b then v else entry bm x y).

(** [bm[a][b] = v]: [IndexError] when an index is out of range. *)
Definition setitem (bm : SqMatrix) (a b : nat) (v : R) : except SqMatrix :=
  if Nat.ltb a (dim bm) && Nat.ltb b (dim bm) then Ok (mset bm a b v) else Err IndexError.

(** [max(0, x)]: CPython keeps the first argument unless the second is greater. *)
Definition max0 (x : R) : R := if Rlt_dec 0 x then x else 0%R.

Definition setLimits (bm : SqMatrix) (lbl1 lbl2 : nat) (value uncertainty : R) : except SqMatrix :=
  if Nat.ltb lbl2 lbl1 then
    bm1 <- setitem bm lbl2 lbl1 (value + uncertainty / 2)%R ;;
    setitem bm1 lbl1 lbl2 (max0 (value - uncertainty / 2))
  else
    bm1 <- setitem bm lbl2 lbl1 (max0 (value - uncertainty / 2)) ;;
    setitem bm1 lbl1 lbl2 (value + uncertainty / 2)%R.

(** [others.remove(idx)]: [ValueError] when [idx] is absent. *)
Definition list_remove (l : list nat) (x : nat) : except (list nat) :=
  if existsb (Nat.eqb x) l then Ok (remove_first Nat.eqb x l) else Err ValueError.

Fixpoint fold_except {A B} (f : A -> B -> except A) (l : list B) (a : A) : except A :=
  match l with
  | [] => Ok a
  | b :: r => a' <- f a b ;; fold_except f r a'
  end.

(** The body of the loop over [k] for the pair [(i, j)]. *)
Definition preEdit_step (i j : nat) (bm : SqMatrix) (k : nat) : SqMatrix :=
  if Nat.eqb k i || Nat.eqb k j || Nat.eqb i j then bm else
  let Uik := if Nat.ltb i k then entry bm i k else entry bm k i in
  let Ukj := if Nat.ltb j k then entry bm j k else entry bm k j in
  let maxLij := (Uik + Ukj - 1 / 10)%R in
  if Rlt_dec maxLij (entry bm i j) then mset bm i j maxLij else bm.

Definition bmPreEdit (bm : SqMatrix) (sect : list nat) : except SqMatrix :=
  others <- fold_except list_remove sect (seq 0 (dim bm)) ;;
  let n := dim bm in
  Ok (fold_left (fun bm i =>
        fold_left (fun bm j =>
            if Nat.ltb i j then bm else fold_left (preEdit_step i j) (seq 0 n) bm)
          (seq 0 i) bm)
      (seq 0 n) bm).

(** The upper limit between atoms [a] and [k] as the loop reads it
    ([bm[a,k] if k > a else bm[k,a]]). *)
Definition upper (bm : SqMatrix) (a k : nat) : R :=
  if Nat.ltb a k then entry bm a k else entry bm k a.

(** [bm'] differs from [bm] only by lowered entries below the diagonal. *)
Definition lowered (bm bm' : SqMatrix) : Prop :=
  dim bm' = dim bm /\
  (forall x y, ~ y < x -> entry bm' x y = entry bm x y) /\
  (forall x y, y < x -> (entry bm' x y <= entry bm x y)%R).

(** [bm] is [bm0] with lowered entries, and every pair selected by [P]
    already meets the triangle bound of [bmPreEdit] through every third atom. *)
Definition preEdit_good (bm0 : SqMatrix) (P : nat -> nat -> Prop) (bm : SqMatrix) : Prop :=
  lowered bm0 bm /\
  forall x y k, P x y -> y < x -> k < dim bm0 -> k <> x -> k <> y ->
    (entry bm x y <= upper bm0 x k + upper bm0 y k - 1 / 10)%R.

End QMReaction.


(** ** Invariants (1)-(4) of the core/edge partition *)

Definition all_in (sp : list Species) (rxn : Reaction) : Prop :=
  forall s, In s (reactants rxn ++ products rxn) -> In s sp.

Definition model_reaction (m : CoreEdgeReactionModel) (r : Reaction) : Prop :=
  In r (reactions (core m)) \/ In r (reactions (edge m)).

Record core_edge_inv (m : CoreEdgeReactionModel) : Prop := {
  inv_species_disjoint :
    forall s, In s (species (core m)) -> ~ In s (species (edge m));
  inv_reactions_disjoint :
    forall r, In r (reactions (core m)) -> ~ In r (reactions (edge m));
  inv_membership :
    forall r, model_reaction m r -> (In r (reactions (core m)) <-> all_in (species (core m)) r);
  inv_closed :
    forall r s, model_reaction m r -> In s (reactants r ++ products r) ->
      In s (species (core m)) \/ In s (species (edge m))
}.

(** * Lemmas *)

(** ** Membership and removal *)

Lemma spec_in_iff (s : Species) (l : list Species) : spec_in s l = true <-> In s l.
Proof.
  unfold spec_in; rewrite existsb_exists; split.
  - intros [x [Hx Hs]]; apply Nat.eqb_eq in Hs; subst; exact Hx.
  - intros H; exists s; split; [exact H | apply Nat.eqb_refl].
Qed.

Lemma reaction_eqb_iff (a b : Reaction) : reaction_eqb a b = true <-> a = b.
Proof. unfold reaction_eqb; destruct (Reaction_eq_dec a b); split; congruence. Qed.

Lemma allCore_iff (sp : list Species) (r : Reaction) : allCore sp r = true <-> all_in sp r.
Proof.
  unfold allCore, all_in; rewrite andb_true_iff, !forallb_forall; split.
  - intros [H1 H2] s Hs; apply in_app_or in Hs as [Hs | Hs];
      apply spec_in_iff; auto.
  - intros H; split; intros s Hs; apply spec_in_iff, H, in_or_app; auto.
Qed.

Section Remove.
Context {A : Type} (eqb : A -> A -> bool) (eqb_iff : forall a b, eqb a b = true <-> a = b).

Lemma remove_first_in (x y : A) (l : list A) : In x (remove_first eqb y l) -> In x l.
Proof.
  induction l as [|z l IH]; simpl; [tauto|].
  destruct (eqb y z); simpl; tauto.
Qed.

Lemma remove_first_absent (x : A) (l : list A) : ~ In x l -> remove_first eqb x l = l.
Proof.
  induction l as [|z l IH]; simpl; intros H; [reflexivity|].
  destruct (eqb x z) eqn:E.
  - apply eqb_iff in E; subst; tauto.
  - rewrite IH; tauto.
Qed.

Lemma remove_first_app (x : A) (k l : list A) :
  ~ In x k -> remove_first eqb x (k ++ l) = k ++ remove_first eqb x l.
Proof.
  induction k as [|z k IH]; simpl; intros H; [reflexivity|].
  destruct (eqb x z) eqn:E.
  - apply eqb_iff in E; subst; tauto.
  - rewrite IH; tauto.
Qed.

Lemma remove_first_nodup (x : A) (l : list A) : NoDup l -> ~ In x (remove_first eqb x l).
Proof.
  induction l as [|z l IH]; simpl; intros Hnd; [tauto|].
  apply NoDup_cons_iff in Hnd as [Hz Hl].
  destruct (eqb x z) eqn:E.
  - apply eqb_iff in E; subst; exact Hz.
  - simpl; intros [H | H]; [rewrite H, (proj2 (eqb_iff x x) eq_refl) in E; discriminate|].
    exact (IH Hl H).
Qed.

Lemma remove_first_length (x : A) (l : list A) : length l <= S (length (remove_first eqb x l)).
Proof.
  induction l as [|z l IH]; simpl; [lia|].
  destruct (eqb x z); simpl; lia.
Qed.

(** Removing, one by one, every element selected by [p] leaves exactly the
    elements not selected. *)
Lemma fold_remove_filter_gen (p : A -> bool) (l k : list A) :
  (forall y, In y (filter p l) -> ~ In y k) ->
  fold_left (fun acc y => remove_first eqb y acc) (filter p l) (k ++ l) =
  k ++ filter (fun y => negb (p y)) l.
Proof.
  revert k; induction l as [|x l IH]; intros k Hk; simpl; [reflexivity|].
  destruct (p x) eqn:Px; simpl.
  - rewrite remove_first_app by (apply Hk; simpl; rewrite Px; left; reflexivity).
    simpl; rewrite (proj2 (eqb_iff x x) eq_refl).
    apply IH; intros y Hy; apply Hk; simpl; rewrite Px; right; exact Hy.
  - replace (k ++ x :: l) with ((k ++ [x]) ++ l) by (rewrite <- app_assoc; reflexivity).
    rewrite IH; [rewrite <- app_assoc; reflexivity|].
    intros y Hy Hin; apply in_app_or in Hin as [Hin | [Hin | []]].
    + apply (Hk y); [simpl; rewrite Px; exact Hy | exact Hin].
    + subst; apply filter_In in Hy; rewrite Px in Hy; destruct Hy; discriminate.
Qed.

Lemma fold_remove_filter (p : A -> bool) (l : list A) :
  fold_left (fun acc y => remove_first eqb y acc) (filter p l) l =
  filter (fun y => negb (p y)) l.
Proof. apply (fold_remove_filter_gen p l []); simpl; tauto. Qed.

End Remove.

(** ** The mutators, field by field *)

Lemma addReactionToCore_fields (rxn : Reaction) (m : CoreEdgeReactionModel) :
  let m' := addReactionToCore rxn m in
  species (core m') = species (core m) /\ species (edge m') = species (edge m) /\
  reactions (core m') = reactions (core m) ++ [rxn] /\
  reactions (edge m') = remove_first reaction_eqb rxn (reactions (edge m)).
Proof.
  unfold addReactionToCore; simpl.
  destruct (rxn_in rxn (reactions (edge m))) eqn:E; simpl; [tauto|].
  rewrite remove_first_absent by
    (exact reaction_eqb_iff ||
     (intros H; unfold rxn_in in E;
      assert (existsb (reaction_eqb rxn) (reactions (edge m)) = true)
        by (apply existsb_exists; exists rxn; split; [exact H | apply reaction_eqb_iff; reflexivity]);
      congruence)).
  tauto.
Qed.

Lemma fold_addReactionToCore (rl : list Reaction) (m : CoreEdgeReactionModel) :
  let m' := fold_left (fun st rxn => addReactionToCore rxn st) rl m in
  species (core m') = species (core m) /\ species (edge m') = species (edge m) /\
  reactions (core m') = reactions (core m) ++ rl /\
  reactions (edge m') =
    fold_left (fun acc y => remove_first reaction_eqb y acc) rl (reactions (edge m)).
Proof.
  revert m; induction rl as [|r rl IH]; intros m; simpl.
  - rewrite app_nil_r; tauto.
  - destruct (IH (addReactionToCore r m)) as (H1 & H2 & H3 & H4).
    destruct (addReactionToCore_fields r m) as (F1 & F2 & F3 & F4).
    rewrite H1, H2, H3, H4, F1, F2, F3, F4, <- app_assoc; simpl; tauto.
Qed.

(** The species lists only grow at the edge, and the core species stay put. *)
Definition sp_grow (m m' : CoreEdgeReactionModel) : Prop :=
  species (core m') = species (core m) /\
  length (species (edge m)) <= length (species (edge m')).

Lemma sp_grow_refl (m : CoreEdgeReactionModel) : sp_grow m m.
Proof. split; [reflexivity | lia]. Qed.

Lemma sp_grow_trans (m1 m2 m3 : CoreEdgeReactionModel) :
  sp_grow m1 m2 -> sp_grow m2 m3 -> sp_grow m1 m3.
Proof. unfold sp_grow; intros [A1 B1] [A2 B2]; split; [congruence | lia]. Qed.

Lemma fold_sp_grow {B} (f : CoreEdgeReactionModel -> B -> CoreEdgeReactionModel)
    (Hf : forall st b, sp_grow st (f st b)) (l : list B) (m : CoreEdgeReactionModel) :
  sp_grow m (fold_left f l m).
Proof.
  revert m; induction l as [|b l IH]; intros m; simpl; [apply sp_grow_refl|].
  eapply sp_grow_trans; [apply Hf | apply IH].
Qed.

Lemma addReactionToCore_grow (r : Reaction) (m : CoreEdgeReactionModel) :
  sp_grow m (addReactionToCore r m).
Proof.
  destruct (addReactionToCore_fields r m) as (F1 & F2 & _).
  unfold sp_grow; rewrite F1, F2; split; [reflexivity | lia].
Qed.

Lemma addReactionToEdge_grow (r : Reaction) (m : CoreEdgeReactionModel) :
  sp_grow m (addReactionToEdge r m).
Proof. unfold sp_grow; simpl; split; [reflexivity | lia]. Qed.

Lemma addMissingToEdge_grow (l : list Species) (m : CoreEdgeReactionModel) :
  sp_grow m (addMissingToEdge l m).
Proof.
  unfold addMissingToEdge; apply fold_sp_grow; intros st s.
  destruct (_ && _); [|apply sp_grow_refl].
  unfold sp_grow; simpl; rewrite length_app; simpl; split; [reflexivity | lia].
Qed.

Lemma enlarge_add_grow (m : CoreEdgeReactionModel) (rxn : Reaction) :
  sp_grow m (enlarge_add m rxn).
Proof.
  unfold enlarge_add.
  assert (G : forall l b st, sp_grow st (snd (fold_left (fun '(b, st) spec =>
      (b && spec_in spec (species (core st)), addMissingToEdge [spec] st)) l (b, st)))).
  { induction l as [|s l IH]; intros b st; cbn [fold_left]; [apply sp_grow_refl|].
    eapply sp_grow_trans; [apply addMissingToEdge_grow | apply IH]. }
  specialize (G (reactants rxn ++ products rxn) true m).
  destruct (fold_left _ _ _) as [b st1]; simpl in G.
  destruct b; (eapply sp_grow_trans; [exact G|]);
    [apply addReactionToCore_grow | apply addReactionToEdge_grow].
Qed.

Lemma addSpeciesToCore_lengths (s : Species) (m : CoreEdgeReactionModel) :
  let m' := addSpeciesToCore s m in
  length (species (core m')) = S (length (species (core m))) /\
  length (species (edge m)) <= S (length (species (edge m'))).
Proof.
  unfold addSpeciesToCore; simpl.
  destruct (spec_in s (species (edge m))).
  - destruct (fold_addReactionToCore
      (filter (allCore (species (core m) ++ [s])) (reactions (edge m)))
      (set_edge (set_core m (mkReactionModel (species (core m) ++ [s]) (reactions (core m))))
         (mkReactionModel (remove_first Nat.eqb s (species (edge m))) (reactions (edge m)))))
      as (H1 & H2 & _).
    simpl in H1, H2; rewrite H1, H2, length_app; simpl.
    split; [lia | apply remove_first_length].
  - simpl; rewrite length_app; simpl; lia.
Qed.

(** [addSpeciesToCore] field by field, when the species was an edge species. *)
Lemma addSpeciesToCore_edge_fields (s : Species) (m : CoreEdgeReactionModel) :
  spec_in s (species (edge m)) = true ->
  let m' := addSpeciesToCore s m in
  let p := allCore (species (core m) ++ [s]) in
  species (core m') = species (core m) ++ [s] /\
  species (edge m') = remove_first Nat.eqb s (species (edge m)) /\
  reactions (core m') = reactions (core m) ++ filter p (reactions (edge m)) /\
  reactions (edge m') = filter (fun r => negb (p r)) (reactions (edge m)).
Proof.
  intros E; unfold addSpeciesToCore; simpl; rewrite E.
  match goal with |- context [fold_left ?f ?rl ?m0] =>
    destruct (fold_addReactionToCore rl m0) as (H1 & H2 & H3 & H4) end.
  simpl in H1, H2, H3, H4; rewrite H1, H2, H3, H4.
  rewrite fold_remove_filter by exact reaction_eqb_iff.
  tauto.
Qed.

(** [addSpeciesToCore] of a species absent from the edge only appends it. *)
Lemma addSpeciesToCore_fresh_fields (s : Species) (m : CoreEdgeReactionModel) :
  spec_in s (species (edge m)) = false ->
  let m' := addSpeciesToCore s m in
  species (core m') = species (core m) ++ [s] /\ species (edge m') = species (edge m) /\
  reactions (core m') = reactions (core m) /\ reactions (edge m') = reactions (edge m).
Proof. intros E; unfold addSpeciesToCore; simpl; rewrite E; simpl; tauto. Qed.

(** * The core/edge partition under [addSpeciesToCore] and [enlarge] *)

(** C6: from a state satisfying invariants (1)-(4) whose edge species list
    has no duplicates (the [ReactionModel] invariant), [addSpeciesToCore s]
    moves every edge reaction whose reactants and products are now all core
    species to [core.reactions] and out of [edge.reactions]; after its single
    pass no edge reaction is left with only core species; and [s] is no
    longer an edge species. *)
Theorem addSpeciesToCore_promotes (m : CoreEdgeReactionModel) (s : Species)
    (Hinv : core_edge_inv m) (Hnd : NoDup (species (edge m))) :
  let m' := addSpeciesToCore s m in
  (forall r, In r (reactions (edge m)) -> all_in (species (core m')) r ->
     In r (reactions (core m')) /\ ~ In r (reactions (edge m'))) /\
  (forall r, In r (reactions (edge m')) -> ~ all_in (species (core m')) r) /\
  ~ In s (species (edge m')).
Proof.
  intros m'.
  destruct (spec_in s (species (edge m))) eqn:E.
  - destruct (addSpeciesToCore_edge_fields s m E) as (C1 & C2 & C3 & C4).
    fold m' in C1, C2, C3, C4.
    rewrite C1, C2, C3, C4; split; [|split].
    + intros r Hr Hall; apply allCore_iff in Hall; split.
      * apply in_or_app; right; apply filter_In; tauto.
      * intros Hf; apply filter_In in Hf as [_ Hf]; rewrite Hall in Hf; discriminate.
    + intros r Hr Hall; apply allCore_iff in Hall.
      apply filter_In in Hr as [_ Hr]; rewrite Hall in Hr; discriminate.
    + apply remove_first_nodup; [exact Nat.eqb_eq | exact Hnd].
  - destruct (addSpeciesToCore_fresh_fields s m E) as (C1 & C2 & C3 & C4).
    fold m' in C1, C2, C3, C4.
    assert (Hs : ~ In s (species (edge m))) by (rewrite <- spec_in_iff; congruence).
    (* no edge reaction of [m] can become all-core: it would already have been *)
    assert (Hno : forall r, In r (reactions (edge m)) -> ~ all_in (species (core m) ++ [s]) r).
    { intros r Hr Hall.
      assert (Hcore : all_in (species (core m)) r).
      { intros x Hx; specialize (Hall x Hx); apply in_app_or in Hall as [Hc | [Hxs | []]];
          [exact Hc|subst x].
        destruct (inv_closed m Hinv r s (or_intror Hr) Hx) as [Hc | He]; [exact Hc | tauto]. }
      apply (inv_membership m Hinv r (or_intror Hr)) in Hcore.
      exact (inv_reactions_disjoint m Hinv r Hcore Hr). }
    rewrite C1, C2, C4; split; [|split].
    + intros r Hr Hall; exfalso; exact (Hno r Hr Hall).
    + exact Hno.
    + exact Hs.
Qed.

(** C7: [enlarge s] never decreases the number of core species, and the
    number of core plus edge species never decreases. *)
Theorem enlarge_species_counts (reactive : Species -> bool)
    (getReactions : list Species -> list Reaction) (s : Species) (m : CoreEdgeReactionModel) :
  let m' := enlarge reactive getReactions s m in
  length (species (core m)) <= length (species (core m')) /\
  length (species (core m)) + length (species (edge m)) <=
    length (species (core m')) + length (species (edge m')).
Proof.
  unfold enlarge; cbv zeta.
  destruct (addSpeciesToCore_lengths s m) as [L1 L2].
  match goal with |- context [fold_left enlarge_add ?rl ?m1] =>
    destruct (fold_sp_grow enlarge_add enlarge_add_grow rl m1) as [G1 G2] end.
  rewrite G1; lia.
Qed.

(** * [initialize] *)

(** The seed set of the script at the end of [model.py]: CH3, H and CH4,
    all reactive, with a kinetics database that only knows the dissociation
    CH4 -> CH3 + H. *)
Definition CH3 : Species := 1.
Definition H_atom : Species := 2.
Definition CH4 : Species := 3.
Definition dissociation : Reaction := mkReaction 0 [CH4] [CH3; H_atom].
Definition methane_db (l : list Species) : list Reaction :=
  match l with [3] => [dissociation] | _ => [] end.

(** C4 (failing input): seeding with [CH3; H; CH4] puts the dissociation
    into [edge.reactions] although its reactant and both products are core
    species, so invariant (3) fails after [initialize]. *)
Theorem initialize_breaks_membership :
  let m := initialize (fun _ => true) methane_db [CH3; H_atom; CH4] CoreEdgeReactionModel_new in
  species (core m) = [CH3; H_atom; CH4] /\ species (edge m) = [] /\
  reactions (core m) = [] /\ reactions (edge m) = [dissociation] /\
  all_in (species (core m)) dissociation /\
  ~ core_edge_inv m.
Proof.
  intros m.
  assert (E : core m = mkReactionModel [1; 2; 3] [] /\
              edge m = mkReactionModel [] [dissociation]) by (split; reflexivity).
  destruct E as [Ec Ee].
  assert (Hall : all_in (species (core m)) dissociation).
  { rewrite Ec; intros x Hx; simpl in Hx |- *; unfold CH3, H_atom, CH4 in Hx; tauto. }
  rewrite Ec, Ee in *; simpl; repeat split; try reflexivity; [exact Hall|].
  intros Hinv.
  assert (Hmr : model_reaction m dissociation) by (right; rewrite Ee; left; reflexivity).
  apply (inv_membership m Hinv dissociation Hmr) in Hall.
  rewrite Ec in Hall; exact Hall.
Qed.

(** * Reaction-system construction *)

(** C8: constructing a [ReactionSystem] (and so a [BatchReactor]) raises
    [InvalidReactionSystemException] exactly when temperature, pressure and
    volume models are all given; otherwise it succeeds and stores the three
    given models unchanged. *)
Theorem ReactionSystem_new_spec (VolumeModel : Type) (tm : option TemperatureModel.t)
    (pm : option PressureModel.t) (vm : option VolumeModel) (ic : option (list (Species * R))) :
  BatchReactor_new VolumeModel = ReactionSystem_new VolumeModel /\
  ((exists label, ReactionSystem_new VolumeModel tm pm vm ic =
                  Err (InvalidReactionSystemException label)) <->
   (tm <> None /\ pm <> None /\ vm <> None)) /\
  ((tm = None \/ pm = None \/ vm = None) ->
   exists rs, ReactionSystem_new VolumeModel tm pm vm ic = Ok rs /\
     temperatureModel VolumeModel rs = tm /\ pressureModel VolumeModel rs = pm /\
     volumeModel VolumeModel rs = vm).
Proof.
  split; [reflexivity|]; unfold ReactionSystem_new.
  destruct tm, pm, vm; split;
    try (split; [intros [l Hl]; discriminate Hl | intros (A & B & C); congruence]);
    try (intros [H | [H | H]]; discriminate H);
    try (intros _; eexists; split; [reflexivity | simpl; tauto]).
  split; [intros _; repeat split; discriminate | intros _; eexists; reflexivity].
Qed.

(** * Profile models *)

(** C10: a temperature (pressure) model that is not isothermal (isobaric),
    in particular one never set, returns [None] at every time; after
    [setIsothermal T] ([setIsobaric P]) it returns [T] ([P]) at every time. *)
Theorem profile_models_values :
  (forall (tm : TemperatureModel.t) (t : R), TemperatureModel.isIsothermal tm = false ->
     TemperatureModel.getTemperature tm t = Ok None) /\
  (forall (pm : PressureModel.t) (t : R), PressureModel.isIsobaric pm = false ->
     PressureModel.getPressure pm t = Ok None) /\
  (forall (t : R), TemperatureModel.getTemperature TemperatureModel.new t = Ok None) /\
  (forall (t : R), PressureModel.getPressure PressureModel.new t = Ok None) /\
  (forall (T t : R) (tm : TemperatureModel.t),
     TemperatureModel.getTemperature (TemperatureModel.setIsothermal T tm) t = Ok (Some T)) /\
  (forall (P t : R) (pm : PressureModel.t),
     PressureModel.getPressure (PressureModel.setIsobaric P pm) t = Ok (Some P)).
Proof.
  repeat split; intros.
  - unfold TemperatureModel.getTemperature; rewrite H; reflexivity.
  - unfold PressureModel.getPressure; rewrite H; reflexivity.
Qed.

(** * Flux screening *)

(** ** Python's [max] over [(value, key)] tuples *)

Lemma tuple_gt_fst (a b : R * nat) : tuple_gt a b = true -> (fst b <= fst a)%R.
Proof.
  unfold tuple_gt; destruct (Req_dec_T (fst a) (fst b)) as [E|E]; [intros _; lra|].
  destruct (Rlt_dec (fst b) (fst a)); [intros _; lra | discriminate].
Qed.

Lemma tuple_gt_false_fst (a b : R * nat) : tuple_gt a b = false -> (fst a <= fst b)%R.
Proof.
  unfold tuple_gt; destruct (Req_dec_T (fst a) (fst b)) as [E|E]; [intros _; lra|].
  destruct (Rlt_dec (fst b) (fst a)) as [L|L]; [discriminate | intros _; lra].
Qed.

Lemma py_max_fold (r : list (R * nat)) (acc : R * nat) :
  let res := fold_left (fun mx it => if tuple_gt it mx then it else mx) r acc in
  (res = acc \/ In res r) /\ (fst acc <= fst res)%R /\ (forall y, In y r -> (fst y <= fst res)%R).
Proof.
  revert acc; induction r as [|x r IH]; intros acc; simpl.
  - split; [left; reflexivity | split; [lra | tauto]].
  - destruct (tuple_gt x acc) eqn:G.
    + apply tuple_gt_fst in G.
      destruct (IH x) as (H1 & H2 & H3); split; [|split].
      * destruct H1 as [H1 | H1]; right; [left; symmetry; exact H1 | right; exact H1].
      * lra.
      * intros y [<- | Hy]; [exact H2 | exact (H3 y Hy)].
    + apply tuple_gt_false_fst in G.
      destruct (IH acc) as (H1 & H2 & H3); split; [|split].
      * destruct H1 as [H1 | H1]; [left; exact H1 | right; right; exact H1].
      * exact H2.
      * intros y [<- | Hy]; [lra | exact (H3 y Hy)].
Qed.

Lemma py_max_spec (l : list (R * nat)) (mx : R * nat) :
  py_max l = Ok mx -> In mx l /\ (forall y, In y l -> (fst y <= fst mx)%R).
Proof.
  destruct l as [|x r]; simpl; intros E; [discriminate|].
  injection E as <-.
  destruct (py_max_fold r x) as (H1 & H2 & H3); split.
  - destruct H1 as [H1 | H1]; [left; symmetry; exact H1 | right; exact H1].
  - intros y [<- | Hy]; [exact H2 | exact (H3 y Hy)].
Qed.

Lemma py_max_nonempty (l : list (R * nat)) : l <> [] -> exists mx, py_max l = Ok mx.
Proof. destruct l; simpl; [tauto | intros _; eexists; reflexivity]. Qed.

Lemma py_max_nil : py_max [] = Err ValueError.
Proof. reflexivity. Qed.

(** [sqrt] of a perfect square, for evaluating the characteristic flux. *)
Lemma sqrt_of_square (x y : R) : x = (y * y)%R -> (0 <= y)%R -> sqrt x = y.
Proof. intros -> Hy; apply sqrt_square; exact Hy. Qed.

Ltac rdecide :=
  repeat match goal with
  | |- context [Rlt_dec ?a ?b] => destruct (Rlt_dec a b); try (exfalso; lra)
  | |- context [Req_dec_T ?a ?b] => destruct (Req_dec_T a b); try (exfalso; lra)
  end.

(** ** [isValid] on states without flux to the edge *)

Lemma fold_skip_non_edge (m : CoreEdgeReactionModel) (g : list (Species * R) -> Species -> list (Species * R))
    (l : list Species) (d : list (Species * R)) :
  (forall x, In x l -> spec_in x (species (edge m)) = false) ->
  fold_left (fun d x => if spec_in x (species (edge m)) then g d x else d) l d = d.
Proof.
  revert d; induction l as [|x l IH]; intros d Hl; simpl; [reflexivity|].
  rewrite (Hl x (or_introl eq_refl)); apply IH; intros y Hy; apply Hl; right; exact Hy.
Qed.

(** When no core reaction involves an edge species, [specFlux] stays empty. *)
Lemma specFlux_nil (getRate : Reaction -> R -> R -> list (Species * R) -> R)
    (m : CoreEdgeReactionModel) (T P : R) (conc : list (Species * R)) :
  (forall r x, In r (reactions (core m)) -> In x (reactants r ++ products r) ->
     ~ In x (species (edge m))) ->
  specFlux getRate m T P conc = [].
Proof.
  intros Hno; unfold specFlux.
  generalize (rxnFlux getRate m T P conc) as fl; intros fl.
  assert (G : forall rl, (forall r, In r rl -> In r (reactions (core m))) ->
            fold_left (specFlux_rxn m fl) rl [] = []).
  { induction rl as [|r rl IH]; intros Hrl; simpl; [reflexivity|].
    assert (Hr : In r (reactions (core m))) by (apply Hrl; left; reflexivity).
    assert (Hx : forall x, In x (reactants r ++ products r) -> spec_in x (species (edge m)) = false).
    { intros x Hx; destruct (spec_in x (species (edge m))) eqn:E; [|reflexivity].
      apply spec_in_iff in E; exfalso; exact (Hno r x Hr Hx E). }
    unfold specFlux_rxn.
    rewrite !fold_skip_non_edge
      by (intros x Hin; apply Hx; apply in_or_app; tauto).
    apply IH; intros r' Hr'; apply Hrl; right; exact Hr'. }
  apply G; tauto.
Qed.

(** C3 (failing inputs): on every state satisfying the core/edge invariants
    no core reaction touches an edge species, the flux dictionary is empty,
    and [max] over it makes [isValid] raise [ValueError] instead of reporting
    the model valid. *)
Theorem isValid_raises_on_consistent_states
    (getRate : Reaction -> R -> R -> list (Species * R) -> R)
    (m : CoreEdgeReactionModel) (T P : R) (conc : list (Species * R)) :
  core_edge_inv m -> isValid getRate m T P conc = Err ValueError.
Proof.
  intros Hinv; unfold isValid.
  rewrite specFlux_nil; [reflexivity|].
  intros r x Hr Hx.
  apply (inv_species_disjoint m Hinv).
  apply (proj1 (inv_membership m Hinv r (or_introl Hr)) Hr); exact Hx.
Qed.

(** Two seeds that share no reaction: both end in the core, the edge stays
    empty (the scenario of the spec), and both screening functions raise. *)
Definition two_seeds : CoreEdgeReactionModel :=
  initialize (fun _ => true) (fun _ => []) [1; 2]%nat CoreEdgeReactionModel_new.

Example two_seeds_state :
  core two_seeds = mkReactionModel [1; 2]%nat [] /\ edge two_seeds = mkReactionModel [] [].
Proof. split; reflexivity. Qed.

Example isModelValid_raises_without_edge_species
    (getRate : Reaction -> R -> R -> list (Species * R) -> R) (P T : R) :
  isModelValid getRate two_seeds P 1 T [1; 1]%R (stoichiometryMatrix two_seeds) 0 = Err ValueError.
Proof. reflexivity. Qed.

(** ** [isValid] returns a bare boolean *)

Definition rxn_A_C : Reaction := mkReaction 1 [1] [3].
Definition rxn_B_C : Reaction := mkReaction 2 [2] [3].

(** Core {1, 2} with reactions 1 -> 3 and 2 -> 3, edge {3}. *)
Definition two_channel_model : CoreEdgeReactionModel :=
  mkCoreEdge (mkReactionModel [1; 2]%nat [rxn_A_C; rxn_B_C]) (mkReactionModel [3]%nat [])
    1 (1/100000000) (1/10000).

(** Rates 3 and 4, whatever the conditions. *)
Definition rate_3_4 (r : Reaction) (T P : R) (c : list (Species * R)) : R :=
  if Nat.eqb (rxn_id r) 1 then 3%R else 4%R.

Ltac eval_screening :=
  cbn -[IZR sqrt Rlt_dec Req_dec_T Rplus Rmult Ropp Rminus pow].

(** C2 (failing input): the characteristic flux is sqrt(3^2 + 4^2) = 5 and
    the flux into species 3 is 7, so the model is invalid; [isValid] returns
    the bare [False], without the offending species, while [isModelValid]
    on the same state reports the pair [(False, 3)]. *)
Theorem isValid_returns_bare_bool :
  isValid rate_3_4 two_channel_model 1000 100000 [] = Ok false /\
  isModelValid rate_3_4 two_channel_model 100000 1 1000 [1; 1]%R
    (stoichiometryMatrix two_channel_model) 0 = Ok (false, Some 3%nat).
Proof.
  split.
  - unfold isValid, charFlux_of, specFlux, rxnFlux; eval_screening.
    rewrite (sqrt_of_square _ 5) by lra; rdecide; reflexivity.
  - unfold isModelValid, getReactionRates, stoichiometryMatrix; eval_screening.
    rewrite (sqrt_of_square _ 5) by lra; rdecide; reflexivity.
Qed.

(** ** The strict comparison of [isValid] *)

(** C5: whenever some edge species has a flux entry, let [M] be the
    largest entry; [isValid] reports the model valid when [M] equals the
    characteristic flux, and more generally when [M <= charFlux], and invalid
    exactly when [M > charFlux]; an invalid verdict always comes from an entry
    strictly above the (non-negative) characteristic flux, so a negative
    (net-consumption) flux never triggers it. *)
Theorem isValid_strict_comparison
    (getRate : Reaction -> R -> R -> list (Species * R) -> R)
    (m : CoreEdgeReactionModel) (T P : R) (conc : list (Species * R)) :
  (0 <= fluxTolerance m)%R ->
  specFlux getRate m T P conc <> [] ->
  let cf := charFlux_of getRate m T P conc in
  let sf := specFlux getRate m T P conc in
  exists M, (exists s, In (s, M) sf) /\ (forall s v, In (s, v) sf -> (v <= M)%R) /\
    (M = cf -> isValid getRate m T P conc = Ok true) /\
    ((M <= cf)%R -> isValid getRate m T P conc = Ok true) /\
    ((cf < M)%R -> isValid getRate m T P conc = Ok false) /\
    (isValid getRate m T P conc = Ok false ->
       exists s v, In (s, v) sf /\ (0 <= cf)%R /\ (cf < v)%R).
Proof.
  intros Htol Hne cf sf.
  assert (Hne' : map (fun kv => (snd kv, fst kv)) sf <> []) by
    (intros E; apply Hne; exact (map_eq_nil _ _ E)).
  destruct (py_max_nonempty _ Hne') as [[M s] Hmx].
  destruct (py_max_spec _ _ Hmx) as [Hin Hbound].
  assert (Hcf : (0 <= cf)%R) by (apply Rmult_le_pos; [exact Htol | apply sqrt_pos]).
  assert (Hval : isValid getRate m T P conc = if Rlt_dec cf M then Ok false else Ok true)
    by (unfold isValid; fold cf sf; rewrite Hmx; reflexivity).
  assert (HinM : In (s, M) sf).
  { apply in_map_iff in Hin as [[k v] [E Hk]]; simpl in E; injection E as -> ->; exact Hk. }
  exists M; split; [exists s; exact HinM|]; split; [|split; [|split; [|split]]].
  - intros s' v Hv; apply (Hbound (v, s')), in_map_iff; exists (s', v); split; [reflexivity | exact Hv].
  - intros E; rewrite Hval; rdecide; reflexivity.
  - intros L; rewrite Hval; rdecide; reflexivity.
  - intros L; rewrite Hval; rdecide; reflexivity.
  - rewrite Hval; destruct (Rlt_dec cf M) as [L|L]; [|discriminate].
    intros _; exists s, M; tauto.
Qed.

(** The boundary scenario of the spec: core {A, B}, edge {C}, one core
    reaction A + B -> C of rate 10, tolerance 1. *)
Definition rxn_AB_C : Reaction := mkReaction 0 [1; 2] [3].

Definition boundary_model : CoreEdgeReactionModel :=
  mkCoreEdge (mkReactionModel [1; 2]%nat [rxn_AB_C]) (mkReactionModel [3]%nat [])
    1 (1/100000000) (1/10000).

Definition rate_10 (r : Reaction) (T P : R) (c : list (Species * R)) : R := 10%R.

(** Flux 10 against a characteristic flux of 10: valid. *)
Example boundary_flux_valid : isValid rate_10 boundary_model 1000 100000 [] = Ok true.
Proof.
  unfold isValid, charFlux_of, specFlux, rxnFlux, rate_10; eval_screening.
  rewrite (sqrt_of_square _ 10) by lra; rdecide; reflexivity.
Qed.

Lemma isValid_strict_comparison_witness :
  (0 <= fluxTolerance boundary_model)%R /\
  specFlux rate_10 boundary_model 1000 100000 [] <> [] /\
  let cf := charFlux_of rate_10 boundary_model 1000 100000 [] in
  let sf := specFlux rate_10 boundary_model 1000 100000 [] in
  exists M, (exists s, In (s, M) sf) /\ (forall s v, In (s, v) sf -> (v <= M)%R) /\
    (M = cf -> isValid rate_10 boundary_model 1000 100000 [] = Ok true) /\
    ((M <= cf)%R -> isValid rate_10 boundary_model 1000 100000 [] = Ok true) /\
    ((cf < M)%R -> isValid rate_10 boundary_model 1000 100000 [] = Ok false) /\
    (isValid rate_10 boundary_model 1000 100000 [] = Ok false ->
       exists s v, In (s, v) sf /\ (0 <= cf)%R /\ (cf < v)%R).
Proof.
  assert (H1 : (0 <= fluxTolerance boundary_model)%R) by (simpl; lra).
  assert (H2 : specFlux rate_10 boundary_model 1000 100000 [] <> []) by
    (unfold specFlux, rxnFlux; eval_screening; discriminate).
  split; [exact H1 | split; [exact H2 | exact (isValid_strict_comparison _ _ _ _ _ H1 H2)]].
Defined.

(** ** [isModelValid] counts core and edge reactions *)

(** The net flux into [s] over all reactions, core then edge, and the
    characteristic flux over the core reactions, for given reaction rates. *)
Definition species_flux (rate : Reaction -> R) (m : CoreEdgeReactionModel) (s : Species) : R :=
  py_sum (map (fun r => (IZR (getStoichiometricCoefficient r s) * rate r)%R) (reactionList m)).

Definition core_char_flux (rate : Reaction -> R) (m : CoreEdgeReactionModel) : R :=
  (fluxTolerance m * sqrt (py_sum (map (fun r => rate r ^ 2) (reactions (core m)))))%R.

Lemma concentrations_ok (sp : list Species) (Ni : list R) (V : R) (d : list (Species * R)) :
  length sp <= length Ni -> exists Ci, concentrations sp Ni V d = Ok Ci.
Proof.
  revert Ni d; induction sp as [|s sp IH]; intros Ni d Hl; simpl; [eexists; reflexivity|].
  destruct Ni as [|n Ni]; simpl in Hl; [lia|].
  apply IH; lia.
Qed.

Lemma combine_map_same {A B C} (f : A -> B) (g : A -> C) (l : list A) :
  combine (map f l) (map g l) = map (fun x => (f x, g x)) l.
Proof. induction l as [|x l IH]; simpl; [reflexivity | rewrite IH; reflexivity]. Qed.

Lemma mat_vec_stoichiometry (c : Reaction -> Species -> R) (rate : Reaction -> R)
    (rl : list Reaction) (sl : list Species) :
  mat_vec (map (fun s => map (fun r => c r s) rl) sl) (map rate rl) =
  Ok (map (fun s => py_sum (map (fun r => (c r s * rate r)%R) rl)) sl).
Proof.
  induction sl as [|s sl IH]; simpl; [reflexivity|].
  unfold dot_row; rewrite !length_map, Nat.eqb_refl, combine_map_same, map_map; simpl.
  rewrite IH; reflexivity.
Qed.

Lemma enumerate_in {A} (f : A -> R) (pre l : list A) (v : R) (k : nat) :
  In (v, k) (enumerate_from (length pre) (map f l)) ->
  exists s, nth_error (pre ++ l) k = Some s /\ In s l /\ v = f s.
Proof.
  revert pre; induction l as [|x l IH]; intros pre Hin; simpl in Hin; [tauto|].
  destruct Hin as [E | Hin].
  - injection E as <- <-; exists x; split; [|split; [left; reflexivity | reflexivity]].
    rewrite nth_error_app2, Nat.sub_diag by lia; reflexivity.
  - replace (S (length pre)) with (length (pre ++ [x])) in Hin
      by (rewrite length_app; simpl; lia).
    destruct (IH (pre ++ [x]) Hin) as (s & Hs & Hsl & Hv).
    rewrite <- app_assoc in Hs; simpl in Hs.
    exists s; split; [exact Hs | split; [right; exact Hsl | exact Hv]].
Qed.

Lemma enumerate_cover {A} (f : A -> R) (n : nat) (l : list A) (s : A) :
  In s l -> exists k, In (f s, k) (enumerate_from n (map f l)).
Proof.
  revert n; induction l as [|x l IH]; intros n Hs; simpl in Hs |- *; [tauto|].
  destruct Hs as [<- | Hs]; [exists n; left; reflexivity|].
  destruct (IH (S n) Hs) as [k Hk]; exists k; right; exact Hk.
Qed.

Lemma firstn_map_app {A B} (f : A -> B) (l1 l2 : list A) :
  firstn (length l1) (map f (l1 ++ l2)) = map f l1.
Proof.
  rewrite map_app, firstn_app, firstn_all2 by (rewrite length_map; lia).
  rewrite length_map, Nat.sub_diag, app_nil_r; reflexivity.
Qed.

Lemma skipn_map_app {A B} (f : A -> B) (l1 l2 : list A) :
  skipn (length l1) (map f (l1 ++ l2)) = map f l2.
Proof.
  rewrite map_app, skipn_app, skipn_all2 by (rewrite length_map; lia).
  rewrite length_map, Nat.sub_diag; reflexivity.
Qed.

(** C1 (as amended): the validity check [simulate] runs takes the
    characteristic flux over the core reactions, but the flux of each edge
    species from the stoichiometry matrix times the rates of all reactions,
    core and edge.  With at least one edge species and enough mole amounts,
    it returns [(False, s)] for an edge species [s] of maximal flux when that
    flux exceeds the characteristic flux, and [(True, None)] when every edge
    species' flux is at most the characteristic flux. *)
Theorem isModelValid_flux_all_reactions
    (getRate : Reaction -> R -> R -> list (Species * R) -> R)
    (m : CoreEdgeReactionModel) (P V T : R) (Ni : list R) (t : R) :
  species (edge m) <> [] ->
  length (species (core m)) <= length Ni ->
  exists Ci, concentrations (species (core m)) Ni V [] = Ok Ci /\
  let rate r := getRate r T P Ci in
  exists b o, isModelValid getRate m P V T Ni (stoichiometryMatrix m) t = Ok (b, o) /\
   (b = true -> o = None /\
      forall s, In s (species (edge m)) -> (species_flux rate m s <= core_char_flux rate m)%R) /\
   (b = false -> exists s, o = Some s /\ In s (species (edge m)) /\
      (core_char_flux rate m < species_flux rate m s)%R /\
      forall s', In s' (species (edge m)) -> (species_flux rate m s' <= species_flux rate m s)%R).
Proof.
  intros Hedge Hlen.
  destruct (concentrations_ok (species (core m)) Ni V [] Hlen) as [Ci HCi].
  exists Ci; split; [exact HCi|]; intros rate.
  assert (Ecf : (fluxTolerance m * sqrt (py_sum (map (fun x => x ^ 2)
      (firstn (length (reactions (core m))) (map (fun rxn => getRate rxn T P Ci) (reactionList m))))))%R
      = core_char_flux rate m).
  { unfold core_char_flux, reactionList; rewrite firstn_map_app, map_map; reflexivity. }
  assert (Emv : mat_vec (stoichiometryMatrix m) (map (fun rxn => getRate rxn T P Ci) (reactionList m))
              = Ok (map (species_flux rate m) (speciesList m))).
  { unfold stoichiometryMatrix.
    exact (mat_vec_stoichiometry (fun r s => IZR (getStoichiometricCoefficient r s))
             (fun r => getRate r T P Ci) (reactionList m) (speciesList m)). }
  assert (Esk : skipn (length (species (core m))) (map (species_flux rate m) (speciesList m))
              = map (species_flux rate m) (species (edge m)))
    by (unfold speciesList; apply skipn_map_app).
  set (en := enumerate_from (length (species (core m))) (map (species_flux rate m) (species (edge m)))).
  assert (Hne : en <> []).
  { unfold en; destruct (species (edge m)); [exfalso; exact (Hedge eq_refl) | discriminate]. }
  destruct (py_max_nonempty en Hne) as [[v k] Hmx].
  destruct (py_max_spec en _ Hmx) as [Hin Hbound].
  destruct (enumerate_in (species_flux rate m) (species (core m)) (species (edge m)) v k Hin)
    as (s & Hnth & Hs & Hv).
  assert (Hmax : forall s', In s' (species (edge m)) -> (species_flux rate m s' <= v)%R).
  { intros s' Hs'; destruct (enumerate_cover (species_flux rate m) (length (species (core m))) _ s' Hs')
      as [k' Hk']; exact (Hbound _ Hk'). }
  unfold isModelValid, getReactionRates; rewrite HCi; cbn [bind].
  rewrite Ecf, Emv; cbn [bind]; rewrite Esk; fold en; rewrite Hmx; cbn [bind fst snd].
  destruct (Rlt_dec (core_char_flux rate m) v) as [L|L].
  - unfold speciesList; rewrite Hnth.
    exists false, (Some s); split; [reflexivity|]; split; [discriminate|].
    intros _; exists s; subst v; repeat split; auto.
  - exists true, None; split; [reflexivity|]; split; [|discriminate].
    intros _; split; [reflexivity|]; intros s' Hs'; specialize (Hmax s' Hs'); lra.
Qed.

(** Core {1} with the core reaction 1 -> 2, edge {2} with the edge reaction
    1 -> 2 (a second channel, [rxn_id] 1). *)
Definition core_rxn_1_2 : Reaction := mkReaction 0 [1] [2].
Definition edge_rxn_1_2 : Reaction := mkReaction 1 [1] [2].

Definition mixed_model : CoreEdgeReactionModel :=
  mkCoreEdge (mkReactionModel [1]%nat [core_rxn_1_2]) (mkReactionModel [2]%nat [edge_rxn_1_2])
    1 (1/100000000) (1/10000).

(** Rate [k] for the edge reaction, 1 for every other reaction. *)
Definition rate_edge (k : R) (r : Reaction) (T P : R) (c : list (Species * R)) : R :=
  if Nat.eqb (rxn_id r) 1 then k else 1%R.

(** C1 (counterexample): with one mole of species 1 in a unit volume (the
    concentrations [isModelValid] computes are passed to [isValid]),
    [isValid] reports the model valid (core flux 1 into species 2, against a
    characteristic flux of 1) while the check of [simulate] reports it invalid
    with species 2 (flux 1 + 1 from the core and the edge reaction); with the
    edge reaction's rate set to 0 that check reports it valid again. *)
Lemma isModelValid_counts_edge_reactions :
  concentrations [1]%nat [1]%R 1 [] = Ok [(1%nat, (1 / 1)%R)] /\
  isValid (rate_edge 1) mixed_model 1000 100000 [(1%nat, (1 / 1)%R)] = Ok true /\
  isModelValid (rate_edge 1) mixed_model 100000 1 1000 [1]%R (stoichiometryMatrix mixed_model) 1
    = Ok (false, Some 2%nat) /\
  isModelValid (rate_edge 0) mixed_model 100000 1 1000 [1]%R (stoichiometryMatrix mixed_model) 1
    = Ok (true, None).
Proof.
  split; [reflexivity|]; split; [|split].
  - unfold isValid, charFlux_of, specFlux, rxnFlux, rate_edge; eval_screening.
    rewrite (sqrt_of_square _ 1) by lra; rdecide; reflexivity.
  - unfold isModelValid, getReactionRates, stoichiometryMatrix, rate_edge; eval_screening.
    rewrite (sqrt_of_square _ 1) by lra; rdecide; reflexivity.
  - unfold isModelValid, getReactionRates, stoichiometryMatrix, rate_edge; eval_screening.
    rewrite (sqrt_of_square _ 1) by lra; rdecide; reflexivity.
Qed.

Lemma isModelValid_flux_all_reactions_witness :
  species (edge mixed_model) <> [] /\
  length (species (core mixed_model)) <= length [1%R] /\
  exists Ci, concentrations (species (core mixed_model)) [1%R] 1 [] = Ok Ci /\
  let rate r := rate_edge 1 r 1000 100000 Ci in
  exists b o, isModelValid (rate_edge 1) mixed_model 100000 1 1000 [1%R]
                (stoichiometryMatrix mixed_model) 1 = Ok (b, o) /\
   (b = true -> o = None /\
      forall s, In s (species (edge mixed_model)) ->
        (species_flux rate mixed_model s <= core_char_flux rate mixed_model)%R) /\
   (b = false -> exists s, o = Some s /\ In s (species (edge mixed_model)) /\
      (core_char_flux rate mixed_model < species_flux rate mixed_model s)%R /\
      forall s', In s' (species (edge mixed_model)) ->
        (species_flux rate mixed_model s' <= species_flux rate mixed_model s)%R).
Proof.
  assert (H1 : species (edge mixed_model) <> []) by discriminate.
  assert (H2 : length (species (core mixed_model)) <= length [1%R]) by (simpl; lia).
  split; [exact H1 | split; [exact H2 |]].
  exact (isModelValid_flux_all_reactions (rate_edge 1) mixed_model 100000 1 1000 [1%R] 1 H1 H2).
Defined.

(** * The integration loop of [simulate] *)

(** C9: in an iteration of the loop whose integrated span ends in the state
    [P, V, T, Ni], a failing validity check ends the run with its species
    (whatever the lead amount), and a passing check followed by a lead core
    species amount below 10% of its initial amount ends it with
    [(True, None)]; either way the span [(t0, tf)] just integrated is the
    last one handed to the integrator. *)
Theorem simulate_loop_stops_when_depleted
    (getRate : Reaction -> R -> R -> list (Species * R) -> R)
    (integrate : list R -> R -> R -> R -> R -> list R * R)
    (m : CoreEdgeReactionModel) (stoich : list (list R)) (y0 y : list R) (fuel : nat)
    (t0 tf P V T tcur : R) (Ni : list R) :
  (t0 < 1)%R ->
  integrate y t0 tf (absoluteTolerance m) (relativeTolerance m) = (P :: V :: T :: Ni, tcur) ->
  (forall s, isModelValid getRate m P V T Ni stoich tf = Ok (false, s) ->
     simulate_loop getRate integrate m stoich y0 (S fuel) t0 tf y = Some (Ok (false, s), [(t0, tf)])) /\
  (forall o a a0, isModelValid getRate m P V T Ni stoich tf = Ok (true, o) ->
     nth_error (P :: V :: T :: Ni) 3 = Some a -> nth_error y0 3 = Some a0 ->
     (a < 1 / 10 * a0)%R ->
     simulate_loop getRate integrate m stoich y0 (S fuel) t0 tf y = Some (Ok (true, None), [(t0, tf)])).
Proof.
  intros Ht Hint; split.
  - intros s Hv; cbn [simulate_loop].
    destruct (Rlt_dec t0 1) as [_|L]; [|lra].
    rewrite Hint; cbn beta iota zeta; rewrite Hv; reflexivity.
  - intros o a a0 Hv Ha Ha0 Hlt; cbn [simulate_loop].
    destruct (Rlt_dec t0 1) as [_|L]; [|lra].
    rewrite Hint; cbn beta iota zeta; rewrite Hv, Ha, Ha0.
    destruct (Rlt_dec a (1 / 10 * a0)) as [_|L]; [reflexivity | lra].
Qed.

(** An integrator stub that returns the fixed state [yf] and the end of the
    span as the time reached. *)
Definition fixed_integrate (yf : list R) (y : list R) (t0 tf atol rtol : R) : list R * R := (yf, tf).

(** Core {1}, edge {2}, no reactions. *)
Definition quiet_model : CoreEdgeReactionModel :=
  mkCoreEdge (mkReactionModel [1]%nat []) (mkReactionModel [2]%nat []) 1 (1/100000000) (1/10000).

Lemma simulate_loop_stops_when_depleted_witness :
  simulate_loop (rate_edge 1) (fixed_integrate [100000; 1; 1000; 1]%R) mixed_model
    (stoichiometryMatrix mixed_model) [100000; 1; 1000; 20]%R 5 0 (1/10) [100000; 1; 1000; 20]%R
    = Some (Ok (false, Some 2%nat), [(0%R, (1/10)%R)]) /\
  simulate_loop (rate_edge 1) (fixed_integrate [100000; 1; 1000; 1]%R) quiet_model
    (stoichiometryMatrix quiet_model) [100000; 1; 1000; 20]%R 5 0 (1/10) [100000; 1; 1000; 20]%R
    = Some (Ok (true, None), [(0%R, (1/10)%R)]).
Proof.
  assert (Ht : (0 < 1)%R) by lra.
  split.
  - apply (proj1 (simulate_loop_stops_when_depleted (rate_edge 1) (fixed_integrate [100000; 1; 1000; 1]%R)
      mixed_model (stoichiometryMatrix mixed_model) [100000; 1; 1000; 20]%R [100000; 1; 1000; 20]%R 4
      0 (1/10) 100000 1 1000 (1/10) [1%R] Ht eq_refl)).
    unfold isModelValid, getReactionRates, stoichiometryMatrix, rate_edge; eval_screening.
    rewrite (sqrt_of_square _ 1) by lra; rdecide; reflexivity.
  - apply (proj2 (simulate_loop_stops_when_depleted (rate_edge 1) (fixed_integrate [100000; 1; 1000; 1]%R)
      quiet_model (stoichiometryMatrix quiet_model) [100000; 1; 1000; 20]%R [100000; 1; 1000; 20]%R 4
      0 (1/10) 100000 1 1000 (1/10) [1%R] Ht eq_refl) None 1%R 20%R);
      [| reflexivity | reflexivity | lra].
    unfold isModelValid, getReactionRates, stoichiometryMatrix; eval_screening.
    rewrite (sqrt_of_square _ 0) by lra; rdecide; reflexivity.
Defined.

(** * Witnesses *)

(** Core {1}, edge {2} with the edge reaction 1 -> 2: a consistent state. *)
Definition one_edge_model : CoreEdgeReactionModel :=
  mkCoreEdge (mkReactionModel [1]%nat []) (mkReactionModel [2]%nat [edge_rxn_1_2]) 1 (1/100000000) (1/10000).

Lemma one_edge_model_inv : core_edge_inv one_edge_model.
Proof.
  constructor; simpl.
  - intros s [<- | []] [H | []]; discriminate H.
  - intros r [].
  - intros r [[] | [<- | []]]; split; [intros [] | intros H].
    assert (X : In 2%nat [1%nat]) by (apply H; simpl; tauto).
    destruct X as [X | []]; discriminate X.
  - intros r s [[] | [<- | []]] Hs; simpl in Hs; tauto.
Qed.

Lemma addSpeciesToCore_promotes_witness :
  core_edge_inv one_edge_model /\ NoDup (species (edge one_edge_model)) /\
  let m' := addSpeciesToCore 2 one_edge_model in
  (forall r, In r (reactions (edge one_edge_model)) -> all_in (species (core m')) r ->
     In r (reactions (core m')) /\ ~ In r (reactions (edge m'))) /\
  (forall r, In r (reactions (edge m')) -> ~ all_in (species (core m')) r) /\
  ~ In 2%nat (species (edge m')).
Proof.
  assert (H2 : NoDup (species (edge one_edge_model))) by (simpl; constructor; [tauto | constructor]).
  split; [exact one_edge_model_inv | split; [exact H2 |]].
  exact (addSpeciesToCore_promotes one_edge_model 2 one_edge_model_inv H2).
Defined.

Lemma two_seeds_inv : core_edge_inv two_seeds.
Proof.
  destruct two_seeds_state as [Ec Ee]; unfold model_reaction.
  constructor; rewrite ?Ec, ?Ee; simpl.
  - intros s _ [].
  - intros r [].
  - intros r [[] | []].
  - intros r s [[] | []].
Qed.

Lemma isValid_raises_on_consistent_states_witness :
  core_edge_inv two_seeds /\ isValid rate_10 two_seeds 1000 100000 [] = Err ValueError.
Proof.
  split; [exact two_seeds_inv |].
  exact (isValid_raises_on_consistent_states rate_10 two_seeds 1000 100000 [] two_seeds_inv).
Defined.

Lemma profile_models_values_witness :
  TemperatureModel.isIsothermal TemperatureModel.new = false /\
  TemperatureModel.getTemperature TemperatureModel.new 5 = Ok None /\
  PressureModel.isIsobaric PressureModel.new = false /\
  PressureModel.getPressure PressureModel.new 5 = Ok None.
Proof.
  split; [reflexivity | split; [apply (proj1 profile_models_values); reflexivity |]].
  split; [reflexivity | apply (proj1 (proj2 profile_models_values)); reflexivity].
Defined.

Lemma ReactionSystem_new_spec_witness :
  (exists label, ReactionSystem_new unit (Some TemperatureModel.new) (Some PressureModel.new) (Some tt) None =
                 Err (InvalidReactionSystemException label)) /\
  (exists rs, ReactionSystem_new unit (Some TemperatureModel.new) (Some PressureModel.new) None None = Ok rs /\
     temperatureModel unit rs = Some TemperatureModel.new /\ pressureModel unit rs = Some PressureModel.new /\
     volumeModel unit rs = None).
Proof.
  split.
  - apply (proj2 (proj1 (proj2 (ReactionSystem_new_spec unit (Some TemperatureModel.new)
      (Some PressureModel.new) (Some tt) None)))).
    repeat split; discriminate.
  - apply (proj2 (proj2 (ReactionSystem_new_spec unit (Some TemperatureModel.new)
      (Some PressureModel.new) None None))).
    right; right; reflexivity.
Defined.

(** * Further properties of [rmg/model.py] *)

(** ** The core/edge invariants under [addSpeciesToCore], [enlarge] and [initialize] *)

Section Remove2.
Context {A : Type} (eqb : A -> A -> bool) (eqb_iff : forall a b, eqb a b = true <-> a = b).

Lemma remove_first_other (x y : A) (l : list A) : In x l -> x <> y -> In x (remove_first eqb y l).
Proof.
  induction l as [|z l IH]; simpl; [tauto|].
  intros Hx Hne; destruct (eqb y z) eqn:E.
  - apply eqb_iff in E; subst; destruct Hx as [Hx | Hx]; [congruence | exact Hx].
  - destruct Hx as [Hx | Hx]; [left; exact Hx | right; exact (IH Hx Hne)].
Qed.

Lemma remove_first_NoDup (y : A) (l : list A) : NoDup l -> NoDup (remove_first eqb y l).
Proof.
  induction l as [|z l IH]; simpl; intros Hnd; [constructor|].
  apply NoDup_cons_iff in Hnd as [Hz Hl].
  destruct (eqb y z); [exact Hl|].
  constructor; [intros H; apply Hz; exact (remove_first_in eqb _ _ _ H) | exact (IH Hl)].
Qed.

End Remove2.

Lemma all_in_app (sp k : list Species) (r : Reaction) : all_in sp r -> all_in (sp ++ k) r.
Proof. intros H x Hx; apply in_or_app; left; exact (H x Hx). Qed.

(** A reaction of a consistent state that only involves core species and a
    species [s] that is not an edge species only involves core species. *)
Lemma all_in_fresh (m : CoreEdgeReactionModel) (s : Species) (r : Reaction) :
  core_edge_inv m -> ~ In s (species (edge m)) -> model_reaction m r ->
  all_in (species (core m) ++ [s]) r -> all_in (species (core m)) r.
Proof.
  intros Hinv Hs Hr Hall x Hx; specialize (Hall x Hx).
  apply in_app_or in Hall as [Hc | [Hxs | []]]; [exact Hc | subst x].
  destruct (inv_closed m Hinv r s Hr Hx) as [Hc | He]; [exact Hc | tauto].
Qed.

Lemma addSpeciesToCore_inv (s : Species) (m : CoreEdgeReactionModel) :
  core_edge_inv m -> NoDup (species (edge m)) ->
  core_edge_inv (addSpeciesToCore s m) /\ NoDup (species (edge (addSpeciesToCore s m))).
Proof.
  intros Hinv Hnd; set (m' := addSpeciesToCore s m).
  destruct (spec_in s (species (edge m))) eqn:E.
  - destruct (addSpeciesToCore_edge_fields s m E) as (C1 & C2 & C3 & C4); fold m' in C1, C2, C3, C4.
    set (p := allCore (species (core m) ++ [s])) in *.
    assert (Hmr : forall r, model_reaction m' r -> model_reaction m r).
    { unfold model_reaction; rewrite C3, C4; intros r [H | H].
      - apply in_app_or in H as [H | H]; [left; exact H | right; apply filter_In in H; tauto].
      - right; apply filter_In in H; tauto. }
    split; [constructor|].
    + rewrite C1, C2; intros x Hc He.
      apply in_app_or in Hc as [Hc | [<- | []]].
      * exact (inv_species_disjoint m Hinv x Hc (remove_first_in Nat.eqb _ _ _ He)).
      * exact (remove_first_nodup Nat.eqb Nat.eqb_eq s _ Hnd He).
    + rewrite C3, C4; intros r Hc He; apply filter_In in He as [He Hp].
      apply in_app_or in Hc as [Hc | Hc].
      * exact (inv_reactions_disjoint m Hinv r Hc He).
      * apply filter_In in Hc as [_ Hc]; rewrite Hc in Hp; discriminate.
    + intros r Hr; specialize (Hmr r Hr); rewrite C3, C1; split.
      * intros H; apply in_app_or in H as [H | H].
        -- apply all_in_app, (inv_membership m Hinv r Hmr), H.
        -- apply filter_In in H as [_ H]; apply allCore_iff, H.
      * intros Hall; apply in_or_app; destruct Hmr as [Hc | He]; [left; exact Hc|].
        right; apply filter_In; split; [exact He | apply allCore_iff, Hall].
    + intros r x Hr Hx; specialize (Hmr r Hr); rewrite C1, C2.
      destruct (inv_closed m Hinv r x Hmr Hx) as [Hc | He].
      * left; apply in_or_app; left; exact Hc.
      * destruct (Nat.eq_dec x s) as [-> | Hne].
        -- left; apply in_or_app; right; left; reflexivity.
        -- right; exact (remove_first_other Nat.eqb Nat.eqb_eq x s _ He Hne).
    + rewrite C2; exact (remove_first_NoDup Nat.eqb s _ Hnd).
  - destruct (addSpeciesToCore_fresh_fields s m E) as (C1 & C2 & C3 & C4); fold m' in C1, C2, C3, C4.
    assert (Hs : ~ In s (species (edge m))) by (rewrite <- spec_in_iff; congruence).
    assert (Hmr : forall r, model_reaction m' r -> model_reaction m r)
      by (unfold model_reaction; rewrite C3, C4; tauto).
    split; [constructor|].
    + rewrite C1, C2; intros x Hc He.
      apply in_app_or in Hc as [Hc | [<- | []]];
        [exact (inv_species_disjoint m Hinv x Hc He) | exact (Hs He)].
    + rewrite C3, C4; exact (inv_reactions_disjoint m Hinv).
    + intros r Hr; specialize (Hmr r Hr); rewrite C3, C1; split.
      * intros H; apply all_in_app, (inv_membership m Hinv r Hmr), H.
      * intros Hall; apply (inv_membership m Hinv r Hmr), (all_in_fresh m s r Hinv Hs Hmr Hall).
    + intros r x Hr Hx; specialize (Hmr r Hr); rewrite C1, C2.
      destruct (inv_closed m Hinv r x Hmr Hx) as [Hc | He]; [left; apply in_or_app; left; exact Hc | right; exact He].
    + rewrite C2; exact Hnd.
Qed.

(** X1: [addSpeciesToCore] keeps invariants (1)-(4) of the core/edge
    partition, and keeps the edge species free of duplicates. *)
Theorem addSpeciesToCore_keeps_invariants (s : Species) (m : CoreEdgeReactionModel) :
  core_edge_inv m -> NoDup (species (edge m)) ->
  core_edge_inv (addSpeciesToCore s m) /\ NoDup (species (edge (addSpeciesToCore s m))).
Proof. exact (addSpeciesToCore_inv s m). Qed.

(** [addMissingToEdge] only appends species that are neither core nor edge
    species, and leaves the rest of the model alone. *)
Lemma addMissingToEdge_props (l : list Species) (st : CoreEdgeReactionModel) :
  let st' := addMissingToEdge l st in
  core st' = core st /\ reactions (edge st') = reactions (edge st) /\
  (forall y, In y (species (edge st)) -> In y (species (edge st'))) /\
  (forall y, In y (species (edge st')) -> In y (species (edge st)) \/ ~ In y (species (core st))) /\
  (NoDup (species (edge st)) -> NoDup (species (edge st'))) /\
  (forall x, In x l -> In x (species (core st)) \/ In x (species (edge st'))).
Proof.
  unfold addMissingToEdge; revert st; induction l as [|x l IH]; intros st; cbn [fold_left].
  - repeat split; auto. intros x [].
  - set (st1 := if negb (spec_in x (species (edge st))) && negb (spec_in x (species (core st)))
                then addSpeciesToEdge x st else st).
    assert (S1 : core st1 = core st /\ reactions (edge st1) = reactions (edge st) /\
      (forall y, In y (species (edge st)) -> In y (species (edge st1))) /\
      (forall y, In y (species (edge st1)) -> In y (species (edge st)) \/ ~ In y (species (core st))) /\
      (NoDup (species (edge st)) -> NoDup (species (edge st1))) /\
      (In x (species (core st)) \/ In x (species (edge st1)))).
    { unfold st1; destruct (spec_in x (species (edge st))) eqn:Ee;
        destruct (spec_in x (species (core st))) eqn:Ec; simpl;
        try (repeat split; auto; apply spec_in_iff in Ee || apply spec_in_iff in Ec; tauto).
      assert (He : ~ In x (species (edge st))) by (rewrite <- spec_in_iff; congruence).
      assert (Hc : ~ In x (species (core st))) by (rewrite <- spec_in_iff; congruence).
      repeat split.
      - intros y Hy; apply in_or_app; left; exact Hy.
      - intros y Hy; apply in_app_or in Hy as [Hy | [<- | []]]; [left; exact Hy | right; exact Hc].
      - intros Hnd; apply NoDup_app; repeat split; [exact Hnd | constructor; [tauto | constructor] |].
        intros y Hy [<- | []]; exact (He Hy).
      - right; apply in_or_app; right; left; reflexivity. }
    destruct S1 as (A1 & A2 & A3 & A4 & A5 & A6).
    destruct (IH st1) as (B1 & B2 & B3 & B4 & B5 & B6).
    rewrite B1, A1, B2, A2; split; [reflexivity | split; [reflexivity|]].
    split; [intros y Hy; apply B3, A3, Hy|].
    split; [intros y Hy; destruct (B4 y Hy) as [H | H]; [apply A4, H | right; rewrite <- A1; exact H]|].
    split; [intros Hnd; apply B5, A5, Hnd|].
    intros z [<- | Hz].
    + destruct A6 as [H | H]; [left; exact H | right; apply B3, H].
    + destruct (B6 z Hz) as [H | H]; [left; rewrite <- A1; exact H | right; exact H].
Qed.

(** The invariants survive a change that keeps the core and the edge
    reactions and only adds edge species that are not core species. *)
Lemma inv_grow_edge_species (m m' : CoreEdgeReactionModel) :
  core_edge_inv m -> core m' = core m -> reactions (edge m') = reactions (edge m) ->
  (forall y, In y (species (edge m)) -> In y (species (edge m'))) ->
  (forall y, In y (species (edge m')) -> In y (species (edge m)) \/ ~ In y (species (core m))) ->
  core_edge_inv m'.
Proof.
  intros Hinv Ec Ee Hsub Hnew.
  assert (Hmr : forall r, model_reaction m' r -> model_reaction m r)
    by (unfold model_reaction; rewrite Ec, Ee; tauto).
  constructor; rewrite ?Ec, ?Ee.
  - intros x Hc He; destruct (Hnew x He) as [H | H]; [exact (inv_species_disjoint m Hinv x Hc H) | exact (H Hc)].
  - exact (inv_reactions_disjoint m Hinv).
  - intros r Hr; exact (inv_membership m Hinv r (Hmr r Hr)).
  - intros r x Hr Hx; destruct (inv_closed m Hinv r x (Hmr r Hr) Hx) as [H | H]; [left; exact H | right; apply Hsub, H].
Qed.

(** The scan of [enlarge] over the species of a reaction. *)
Lemma enlarge_scan (l : list Species) (b : bool) (st : CoreEdgeReactionModel) :
  core_edge_inv st -> NoDup (species (edge st)) ->
  let res := fold_left (fun '(b, st) spec =>
      (b && spec_in spec (species (core st)), addMissingToEdge [spec] st)) l (b, st) in
  core_edge_inv (snd res) /\ NoDup (species (edge (snd res))) /\
  core (snd res) = core st /\ reactions (edge (snd res)) = reactions (edge st) /\
  fst res = b && forallb (fun x => spec_in x (species (core st))) l /\
  (forall y, In y (species (edge st)) -> In y (species (edge (snd res)))) /\
  (forall x, In x l -> In x (species (core st)) \/ In x (species (edge (snd res)))).
Proof.
  revert b st; induction l as [|x l IH]; intros b st Hinv Hnd; cbn [fold_left].
  - simpl; rewrite andb_true_r; split; [exact Hinv|]; split; [exact Hnd|]; split; [reflexivity|]; split; [reflexivity|]; split; [reflexivity|]; split; [tauto|]; intros x [].
  - destruct (addMissingToEdge_props [x] st) as (A1 & A2 & A3 & A4 & A5 & A6).
    set (st1 := addMissingToEdge [x] st) in *.
    assert (I1 : core_edge_inv st1) by (apply (inv_grow_edge_species st); assumption).
    destruct (IH (b && spec_in x (species (core st))) st1 I1 (A5 Hnd)) as (B1 & B2 & B3 & B4 & B5 & B6 & B7).
    split; [exact B1 | split; [exact B2|]].
    rewrite B5, B3, B4, A2, A1; split; [reflexivity | split; [reflexivity|]].
    split; [simpl; rewrite andb_assoc; reflexivity|].
    split; [intros y Hy; apply B6, A3, Hy|].
    intros z [<- | Hz].
    + destruct (A6 x (or_introl eq_refl)) as [H | H]; [left; exact H | right; apply B6, H].
    + destruct (B7 z Hz) as [H | H]; [left; rewrite <- A1; exact H | right; exact H].
Qed.

Lemma forallb_spec_in (l sp : list Species) :
  forallb (fun x => spec_in x sp) l = true <-> forall x, In x l -> In x sp.
Proof.
  rewrite forallb_forall; split; intros H x Hx; apply spec_in_iff; [apply H, Hx|].
  apply H, Hx.
Qed.

Lemma enlarge_add_inv (st : CoreEdgeReactionModel) (rxn : Reaction) :
  core_edge_inv st -> NoDup (species (edge st)) ->
  core_edge_inv (enlarge_add st rxn) /\ NoDup (species (edge (enlarge_add st rxn))).
Proof.
  intros Hinv Hnd; unfold enlarge_add.
  destruct (enlarge_scan (reactants rxn ++ products rxn) true st Hinv Hnd)
    as (B1 & B2 & B3 & B4 & B5 & B6 & B7).
  destruct (fold_left _ _ _) as [b st1]; simpl in B1, B2, B3, B4, B5, B6, B7.
  simpl in B5; rewrite B5.
  assert (Hcl : forall x, In x (reactants rxn ++ products rxn) ->
            In x (species (core st1)) \/ In x (species (edge st1))) by (rewrite B3; exact B7).
  destruct (forallb _ _) eqn:F.
  - (* all species core: the reaction goes to the core *)
    pose proof (proj1 (forallb_spec_in _ _) F) as F'; clear F; rename F' into F; rewrite <- B3 in F.
    assert (Hne : ~ In rxn (reactions (edge st1))).
    { intros He; apply (inv_reactions_disjoint st1 B1 rxn); [|exact He].
      apply (inv_membership st1 B1 rxn (or_intror He)); exact F. }
    destruct (addReactionToCore_fields rxn st1) as (C1 & C2 & C3 & C4).
    rewrite remove_first_absent in C4 by (exact reaction_eqb_iff || exact Hne).
    set (st' := addReactionToCore rxn st1) in *.
    assert (Hmr : forall r, model_reaction st' r -> model_reaction st1 r \/ r = rxn).
    { unfold model_reaction; rewrite C3, C4; intros r [H | H]; [|tauto].
      apply in_app_or in H as [H | [<- | []]]; tauto. }
    split; [constructor|].
    + rewrite C1, C2; exact (inv_species_disjoint st1 B1).
    + rewrite C3, C4; intros r Hc He; apply in_app_or in Hc as [Hc | [<- | []]];
        [exact (inv_reactions_disjoint st1 B1 r Hc He) | exact (Hne He)].
    + intros r Hr; rewrite C3, C1.
      destruct (Reaction_eq_dec r rxn) as [-> | Hrx].
      * split; [intros _; exact F | intros _; apply in_or_app; right; left; reflexivity].
      * destruct (Hmr r Hr) as [Hr1 | ->]; [|congruence].
        rewrite <- (inv_membership st1 B1 r Hr1); split; intros H.
        -- apply in_app_or in H as [H | [H | []]]; [exact H | congruence].
        -- apply in_or_app; left; exact H.
    + intros r x Hr Hx; rewrite C1, C2.
      destruct (Hmr r Hr) as [Hr1 | ->]; [exact (inv_closed st1 B1 r x Hr1 Hx) | exact (Hcl x Hx)].
    + rewrite C2; exact B2.
  - (* some species outside the core: the reaction goes to the edge *)
    assert (Hna : ~ all_in (species (core st1)) rxn).
    { intros Hall; rewrite B3 in Hall; apply (proj2 (forallb_spec_in _ (species (core st)))) in Hall; congruence. }
    assert (Hnc : ~ In rxn (reactions (core st1))).
    { intros Hc; apply Hna, (inv_membership st1 B1 rxn (or_introl Hc)), Hc. }
    unfold addReactionToEdge, set_edge; simpl.
    set (st' := mkCoreEdge (core st1) (mkReactionModel (species (edge st1)) (reactions (edge st1) ++ [rxn]))
                  (fluxTolerance st1) (absoluteTolerance st1) (relativeTolerance st1)).
    assert (Hmr : forall r, model_reaction st' r -> model_reaction st1 r \/ r = rxn).
    { unfold model_reaction; simpl; intros r [H | H]; [tauto|].
      apply in_app_or in H as [H | [<- | []]]; tauto. }
    split; [constructor; simpl|].
    + exact (inv_species_disjoint st1 B1).
    + intros r Hc He; apply in_app_or in He as [He | [<- | []]];
        [exact (inv_reactions_disjoint st1 B1 r Hc He) | exact (Hnc Hc)].
    + intros r Hr; destruct (Hmr r Hr) as [Hr1 | ->]; [exact (inv_membership st1 B1 r Hr1)|].
      split; intros H; [exact (False_ind _ (Hnc H)) | exact (False_ind _ (Hna H))].
    + intros r x Hr Hx; destruct (Hmr r Hr) as [Hr1 | ->]; [exact (inv_closed st1 B1 r x Hr1 Hx) | exact (Hcl x Hx)].
    + exact B2.
Qed.

(** X2: [enlarge] keeps invariants (1)-(4) of the core/edge partition, and
    keeps the edge species free of duplicates. *)
Lemma enlarge_inv (reactive : Species -> bool) (getReactions : list Species -> list Reaction)
    (s : Species) (m : CoreEdgeReactionModel) :
  core_edge_inv m -> NoDup (species (edge m)) ->
  core_edge_inv (enlarge reactive getReactions s m) /\
  NoDup (species (edge (enlarge reactive getReactions s m))).
Proof.
  intros Hinv Hnd; unfold enlarge; cbv zeta.
  destruct (addSpeciesToCore_inv s m Hinv Hnd) as [I1 N1].
  generalize (addSpeciesToCore s m) I1 N1; clear.
  induction (getReactions [s] ++ _) as [|r rl IH]; intros st I N; simpl; [tauto|].
  destruct (enlarge_add_inv st r I N) as [I' N']; exact (IH _ I' N').
Qed.

Lemma initialize_step_props (st : CoreEdgeReactionModel) (rxn : Reaction) :
  let st' := addReactionToEdge rxn (addMissingToEdge (products rxn) (addMissingToEdge (reactants rxn) st)) in
  species (core st') = species (core st) /\
  (NoDup (species (edge st)) -> NoDup (species (edge st'))) /\
  (forall y, In y (species (edge st')) -> In y (species (edge st)) \/ ~ In y (species (core st))).
Proof.
  destruct (addMissingToEdge_props (reactants rxn) st) as (A1 & _ & _ & A4 & A5 & _).
  set (st1 := addMissingToEdge (reactants rxn) st) in *.
  destruct (addMissingToEdge_props (products rxn) st1) as (B1 & _ & _ & B4 & B5 & _).
  set (st2 := addMissingToEdge (products rxn) st1) in *.
  unfold addReactionToEdge, set_edge; simpl.
  rewrite B1, A1; split; [reflexivity | split; [intros H; apply B5, A5, H|]].
  intros y Hy; destruct (B4 y Hy) as [H | H]; [apply A4, H | right; rewrite <- A1; exact H].
Qed.

Lemma initialize_steps_props (rl : list Reaction) (m1 : CoreEdgeReactionModel) :
  let m2 := fold_left (fun st rxn =>
      addReactionToEdge rxn (addMissingToEdge (products rxn) (addMissingToEdge (reactants rxn) st)))
    rl m1 in
  species (core m2) = species (core m1) /\
  (NoDup (species (edge m1)) -> NoDup (species (edge m2))) /\
  (forall y, In y (species (core m1)) -> ~ In y (species (edge m1)) -> ~ In y (species (edge m2))).
Proof.
  revert m1; induction rl as [|r rl IH]; intros m1; simpl; [tauto|].
  destruct (initialize_step_props m1 r) as (S1 & S2 & S3).
  destruct (IH (addReactionToEdge r (addMissingToEdge (products r) (addMissingToEdge (reactants r) m1))))
    as (T1 & T2 & T3).
  rewrite T1, S1; split; [reflexivity | split; [intros H; apply T2, S2, H|]].
  intros y Hc He; apply T3; [rewrite S1; exact Hc|].
  intros Hin; destruct (S3 y Hin) as [H | H]; [exact (He H) | exact (H Hc)].
Qed.

Lemma initialize_one_props (reactive : Species -> bool) (getReactions : list Species -> list Reaction)
    (st : CoreEdgeReactionModel) (s : Species) :
  let st' := initialize_one reactive getReactions st s in
  species (core st') = species (core st) ++ [s] /\
  (NoDup (species (edge st)) ->
   NoDup (species (edge st')) /\ ~ In s (species (edge st')) /\
   forall y, In y (species (core st)) -> ~ In y (species (edge st)) -> ~ In y (species (edge st'))).
Proof.
  unfold initialize_one; cbv zeta.
  match goal with |- context [fold_left ?f ?rl (addSpeciesToCore s st)] =>
    destruct (initialize_steps_props rl (addSpeciesToCore s st)) as (T1 & T2 & T3) end.
  rewrite T1.
  destruct (spec_in s (species (edge st))) eqn:E.
  - destruct (addSpeciesToCore_edge_fields s st E) as (C1 & C2 & _).
    rewrite C1 in T3 |- *; rewrite C2 in T2, T3; split; [reflexivity|]; intros Hnd.
    split; [exact (T2 (remove_first_NoDup Nat.eqb s _ Hnd))|]; split.
    + apply T3; [apply in_or_app; right; left; reflexivity|].
      exact (remove_first_nodup Nat.eqb Nat.eqb_eq s _ Hnd).
    + intros y Hc He; apply T3; [apply in_or_app; left; exact Hc|].
      intros H; exact (He (remove_first_in Nat.eqb _ _ _ H)).
  - destruct (addSpeciesToCore_fresh_fields s st E) as (C1 & C2 & _).
    rewrite C1 in T3 |- *; rewrite C2 in T2, T3; split; [reflexivity|]; intros Hnd.
    split; [exact (T2 Hnd)|]; split.
    + apply T3; [apply in_or_app; right; left; reflexivity|].
      rewrite <- spec_in_iff; congruence.
    + intros y Hc He; apply T3; [apply in_or_app; left; exact Hc | exact He].
Qed.

(** X3: [initialize] appends the seeds to the core species in their order,
    keeps the edge species free of duplicates, and leaves no seed among the
    edge species. *)
Lemma initialize_seeds (reactive : Species -> bool) (getReactions : list Species -> list Reaction)
    (seeds : list Species) (m : CoreEdgeReactionModel) :
  NoDup (species (edge m)) ->
  let m' := initialize reactive getReactions seeds m in
  species (core m') = species (core m) ++ seeds /\ NoDup (species (edge m')) /\
  forall s, In s seeds -> ~ In s (species (edge m')).
Proof.
  intros Hnd; unfold initialize.
  assert (G : forall done st, species (core st) = species (core m) ++ done ->
    NoDup (species (edge st)) -> (forall s, In s done -> ~ In s (species (edge st))) ->
    let st' := fold_left (initialize_one reactive getReactions) seeds st in
    species (core st') = species (core m) ++ done ++ seeds /\ NoDup (species (edge st')) /\
    forall s, In s (done ++ seeds) -> ~ In s (species (edge st'))).
  { clear Hnd; induction seeds as [|x seeds IH]; intros done st Hc Hn Hd; simpl.
    - rewrite !app_nil_r; tauto.
    - destruct (initialize_one_props reactive getReactions st x) as (P1 & P2).
      destruct (P2 Hn) as (N1 & N2 & N3).
      destruct (IH (done ++ [x]) (initialize_one reactive getReactions st x)) as (Q1 & Q2 & Q3).
      + rewrite P1, Hc, app_assoc; reflexivity.
      + exact N1.
      + intros s Hs; apply in_app_or in Hs as [Hs | [<- | []]]; [|exact N2].
        apply N3; [rewrite Hc; apply in_or_app; right; exact Hs | exact (Hd s Hs)].
      + rewrite <- !app_assoc in Q1, Q3; simpl in Q1, Q3; tauto. }
  destruct (G [] m (eq_sym (app_nil_r _)) Hnd (fun s H => False_ind _ H)) as (Q1 & Q2 & Q3).
  rewrite app_nil_l in Q1; split; [exact Q1 | split; [exact Q2 | exact Q3]].
Qed.

(** ** [isModelValid] and [simulate] *)


Lemma concentrations_short (sp : list Species) (Ni : list R) (V : R) (d : list (Species * R)) :
  length Ni < length sp -> concentrations sp Ni V d = Err IndexError.
Proof.
  revert Ni d; induction sp as [|s sp IH]; intros Ni d Hl; simpl in Hl |- *; [lia|].
  destruct Ni as [|n Ni]; [reflexivity|]; simpl in Hl; apply IH; lia.
Qed.

(** X4: [isModelValid] raises [IndexError] when it is given fewer mole
    numbers than there are core species. *)
Theorem isModelValid_short_moles (getRate : Reaction -> R -> R -> list (Species * R) -> R)
    (m : CoreEdgeReactionModel) (P V T : R) (Ni : list R) (stoich : list (list R)) (t : R) :
  length Ni < length (species (core m)) ->
  isModelValid getRate m P V T Ni stoich t = Err IndexError.
Proof.
  intros Hl; unfold isModelValid, getReactionRates; rewrite concentrations_short by exact Hl; reflexivity.
Qed.

(** X5: with no edge species, [isModelValid] on the model's stoichiometry
    matrix raises [ValueError] (the [max] over an empty list). *)
Theorem isModelValid_no_edge_species (getRate : Reaction -> R -> R -> list (Species * R) -> R)
    (m : CoreEdgeReactionModel) (P V T : R) (Ni : list R) (t : R) :
  species (edge m) = [] -> length (species (core m)) <= length Ni ->
  isModelValid getRate m P V T Ni (stoichiometryMatrix m) t = Err ValueError.
Proof.
  intros He Hl.
  destruct (concentrations_ok (species (core m)) Ni V [] Hl) as [Ci HCi].
  unfold isModelValid, getReactionRates; rewrite HCi; cbn [bind].
  unfold stoichiometryMatrix.
  rewrite (mat_vec_stoichiometry (fun r s => IZR (getStoichiometricCoefficient r s))
             (fun r => getRate r T P Ci) (reactionList m) (speciesList m)); cbn [bind].
  unfold speciesList; rewrite skipn_map_app, He; reflexivity.
Qed.



(** X7: [simulate] raises [AttributeError] without a pressure or a temperature
    model, and [TypeError] when that model is not isobaric or isothermal
    (its [getPressure] or [getTemperature] returns [None]). *)
Theorem simulate_profile_errors (VolumeModel : Type)
    (getRate : Reaction -> R -> R -> list (Species * R) -> R)
    (integrate : list R -> R -> R -> R -> R -> list R * R)
    (rs : ReactionSystem VolumeModel) (m : CoreEdgeReactionModel) (fuel : nat) :
  let sim := simulate VolumeModel getRate integrate rs m fuel in
  (pressureModel VolumeModel rs = None -> sim = Some (Err AttributeError, [])) /\
  (forall pm, pressureModel VolumeModel rs = Some pm -> PressureModel.isIsobaric pm = false ->
     sim = Some (Err TypeError, [])) /\
  (forall pm P, pressureModel VolumeModel rs = Some pm -> PressureModel.getPressure pm 0 = Ok (Some P) ->
     (temperatureModel VolumeModel rs = None -> sim = Some (Err AttributeError, [])) /\
     (forall tm, temperatureModel VolumeModel rs = Some tm ->
        TemperatureModel.isIsothermal tm = false -> sim = Some (Err TypeError, []))).
Proof.
  intros sim; unfold sim, simulate; split; [|split].
  - intros H; rewrite H; reflexivity.
  - intros pm H Hi; rewrite H; unfold PressureModel.getPressure; rewrite Hi; reflexivity.
  - intros pm P H HP; rewrite H, HP; cbn [py_float bind]; split.
    + intros Ht; rewrite Ht; reflexivity.
    + intros tm Ht Hi; rewrite Ht; unfold TemperatureModel.getTemperature; rewrite Hi; reflexivity.
Qed.

(** ** Sums *)

Lemma fold_Rplus_shift (l : list R) (a : R) : fold_left Rplus l a = (a + fold_left Rplus l 0)%R.
Proof.
  revert a; induction l as [|x l IH]; intros a; simpl; [ring|].
  rewrite IH, (IH (0 + x)%R); ring.
Qed.

Lemma py_sum_cons (x : R) (l : list R) : py_sum (x :: l) = (x + py_sum l)%R.
Proof. unfold py_sum; simpl; rewrite fold_Rplus_shift; ring. Qed.

Lemma dot_const {A} (c : R) (l1 : list A) (l2 : list R) :
  length l1 = length l2 ->
  py_sum (map (fun ab => (fst ab * snd ab)%R) (combine (map (fun _ => c) l1) l2)) = (c * py_sum l2)%R.
Proof.
  revert l2; induction l1 as [|x l1 IH]; intros [|y l2] Hl; simpl in Hl |- *; try discriminate.
  - unfold py_sum; simpl; ring.
  - rewrite !py_sum_cons, IH by lia; simpl; ring.
Qed.

Lemma firstn_rows_map_app {A B} (f : A -> B -> R) (rl1 rl2 : list A) (sl1 sl2 : list B) :
  map (firstn (length rl1)) (firstn (length sl1)
    (map (fun s => map (fun r => f r s) (rl1 ++ rl2)) (sl1 ++ sl2))) =
  map (fun s => map (fun r => f r s) rl1) sl1.
Proof.
  rewrite firstn_map_app, map_map; apply map_ext; intros s; apply firstn_map_app.
Qed.

(** X8: for the ideal gas, with the model's stoichiometry matrix, [getResidual]
    returns the derivatives [[0; dVdt; 0] ++ dNidt], where [dNidt] of a core
    species is the sum over core reactions of its coefficient times the rate,
    and [dVdt] satisfies [dVdt * sum Ni = V * sum dNidt]. *)
Theorem getResidual_batch (getRate : Reaction -> R -> R -> list (Species * R) -> R)
    (m : CoreEdgeReactionModel) (P V T : R) (Ni : list R) (t : R) :
  length Ni = length (species (core m)) -> py_sum Ni <> 0%R -> P <> 0%R -> T <> 0%R ->
  exists Ci, concentrations (species (core m)) Ni V [] = Ok Ci /\
  let rate r := getRate r T P Ci in
  let dNidt := map (fun s => py_sum (map (fun r =>
                  (IZR (getStoichiometricCoefficient r s) * rate r)%R) (reactions (core m))))
                (species (core m)) in
  exists dVdt,
    getResidual getRate (Some IdealGas.mk) (P :: V :: T :: Ni) t m (stoichiometryMatrix m) =
      Ok ([0%R; dVdt; 0%R] ++ dNidt) /\
    (dVdt * py_sum Ni = V * py_sum dNidt)%R.
Proof.
  intros Hl HN HP HT.
  destruct (concentrations_ok (species (core m)) Ni V [] (Nat.eq_le_incl _ _ (eq_sym Hl))) as [Ci HCi].
  exists Ci; split; [exact HCi|]; intros rate dNidt.
  unfold getResidual, getReactionRates; rewrite HCi; cbn [bind].
  unfold stoichiometryMatrix, speciesList, reactionList.
  rewrite firstn_rows_map_app, firstn_map_app.
  rewrite (mat_vec_stoichiometry (fun r s => IZR (getStoichiometricCoefficient r s))
             (fun r => getRate r T P Ci) (reactions (core m)) (species (core m))); cbn [bind].
  fold dNidt.
  assert (Ld : length (map (fun i => IdealGas.getdVdNi P V T (IdealGas.NList Ni) i) Ni) = length dNidt)
    by (unfold dNidt; rewrite !length_map; exact Hl).
  unfold dot_row; rewrite Ld, Nat.eqb_refl; cbn [bind].
  unfold IdealGas.getdVdNi; rewrite dot_const by (unfold dNidt; rewrite length_map; exact Hl).
  eexists; split; [reflexivity|].
  unfold dNidt, rate; field; exact HN.
Qed.

(** ** The ideal gas *)

Lemma dlim_affine (a b x : R) : derivable_pt_lim (fun y => a * y + b)%R x a.
Proof.
  assert (H := derivable_pt_lim_plus (fun y => a * y)%R (fun _ => b) x (a * 1) 0
    (derivable_pt_lim_scal id a x 1 (derivable_pt_lim_id x)) (derivable_pt_lim_const b x)).
  replace (a * 1 + 0)%R with a in H by ring.
  exact (derivable_pt_lim_ext _ _ _ _ (fun z => eq_refl) H).
Qed.

Lemma dlim_recip (a b c x : R) : (b * x + c <> 0)%R ->
  derivable_pt_lim (fun y => a / (b * y + c))%R x (- (a * b) / (b * x + c) ^ 2)%R.
Proof.
  intros Hne.
  assert (H := derivable_pt_lim_div (fun _ => a) (fun y => b * y + c)%R x 0 b
    (derivable_pt_lim_const a x) (dlim_affine b c x) Hne).
  cbv beta in H.
  replace ((0 * (b * x + c) - b * a) / (b * x + c)²)%R with (- (a * b) / (b * x + c) ^ 2)%R in H
    by (unfold Rsqr; field; exact Hne).
  exact (derivable_pt_lim_ext _ _ _ _ (fun z => eq_refl) H).
Qed.

Lemma dlim_affine_at (f : R -> R) (a b x l : R) :
  (forall z, f z = a * z + b)%R -> l = a -> derivable_pt_lim f x l.
Proof.
  intros Hf ->; exact (derivable_pt_lim_ext _ _ _ _ (fun z => eq_sym (Hf z)) (dlim_affine a b x)).
Qed.

Lemma dlim_recip_at (f : R -> R) (a b c x l : R) :
  (forall z, f z = a / (b * z + c))%R -> (b * x + c <> 0)%R ->
  l = (- (a * b) / (b * x + c) ^ 2)%R -> derivable_pt_lim f x l.
Proof.
  intros Hf Hne ->; exact (derivable_pt_lim_ext _ _ _ _ (fun z => eq_sym (Hf z)) (dlim_recip a b c x Hne)).
Qed.

Lemma py_sum_list_set (N : list R) (i : nat) (x : R) :
  i < length N -> py_sum (list_set N i x) = (py_sum N - nth i N 0%R + x)%R.
Proof.
  revert i; induction N as [|v N IH]; intros i Hi; simpl in Hi; [lia|].
  destruct i as [|i]; simpl list_set; simpl nth; rewrite !py_sum_cons; [ring|].
  rewrite IH by lia; ring.
Qed.

(** X9: the ideal-gas equations of state invert each other: the pressure at
    the volume computed from [(T, P)] is [P], the temperature there is [T],
    and likewise through the temperature computed from [(P, V)]. *)
Theorem IdealGas_round_trips (gas_R P V T : R) (N : list R) :
  gas_R <> 0%R -> py_sum N <> 0%R -> P <> 0%R -> V <> 0%R -> T <> 0%R ->
  IdealGas.getPressure gas_R T (IdealGas.getVolume gas_R T P N) N = P /\
  IdealGas.getTemperature gas_R P (IdealGas.getVolume gas_R T P N) N = T /\
  IdealGas.getVolume gas_R (IdealGas.getTemperature gas_R P V N) P N = V /\
  IdealGas.getPressure gas_R (IdealGas.getTemperature gas_R P V N) V N = P.
Proof.
  intros HR HN HP HV HT; unfold IdealGas.getPressure, IdealGas.getVolume, IdealGas.getTemperature.
  repeat split; field; repeat split; assumption.
Qed.

(** X10: at a state on the ideal-gas law, [getdPdV], [getdPdT], [getdVdT],
    [getdVdP], [getdTdP] and [getdTdV] are the derivatives of
    [getPressure], [getVolume] and [getTemperature] in the named variable. *)
Theorem IdealGas_derivatives (gas_R P V T : R) (N : list R) :
  gas_R <> 0%R -> py_sum N <> 0%R -> P <> 0%R -> V <> 0%R -> T <> 0%R ->
  (P * V = py_sum N * gas_R * T)%R ->
  derivable_pt_lim (fun v => IdealGas.getPressure gas_R T v N) V (IdealGas.getdPdV P V T N) /\
  derivable_pt_lim (fun t => IdealGas.getPressure gas_R t V N) T (IdealGas.getdPdT P V T N) /\
  derivable_pt_lim (fun t => IdealGas.getVolume gas_R t P N) T (IdealGas.getdVdT P V T N) /\
  derivable_pt_lim (fun p => IdealGas.getVolume gas_R T p N) P (IdealGas.getdVdP P V T N) /\
  derivable_pt_lim (fun p => IdealGas.getTemperature gas_R p V N) P (IdealGas.getdTdP P V T N) /\
  derivable_pt_lim (fun v => IdealGas.getTemperature gas_R P v N) V (IdealGas.getdTdV P V T N).
Proof.
  intros HR HN HP HV HT Hst.
  assert (EP : P = (py_sum N * gas_R * T / V)%R)
    by (apply (Rmult_eq_reg_r V); [rewrite Hst; field; exact HV | exact HV]).
  unfold IdealGas.getPressure, IdealGas.getVolume, IdealGas.getTemperature,
    IdealGas.getdVdP, IdealGas.getdTdP, IdealGas.getdTdV,
    IdealGas.getdPdV, IdealGas.getdPdT, IdealGas.getdVdT.
  remember (py_sum N) as S eqn:ES; clear ES.
  clear Hst; subst P.
  split; [|split; [|split; [|split; [|split]]]].
  - apply (dlim_recip_at _ (S * gas_R * T) 1 0); [intros z; replace (1 * z + 0)%R with z by ring; reflexivity
      | rewrite Rmult_1_l, Rplus_0_r; exact HV | field; auto].
  - apply (dlim_affine_at _ (S * gas_R / V) 0); [intros z; field; exact HV | field; auto].
  - apply (dlim_affine_at _ (S * gas_R / (S * gas_R * T / V)) 0);
      [intros z; field; auto | field; auto].
  - apply (dlim_recip_at _ (S * gas_R * T) 1 0); [intros z; replace (1 * z + 0)%R with z by ring; reflexivity
      | rewrite Rmult_1_l, Rplus_0_r; exact HP | field; auto].
  - apply (dlim_affine_at _ (V / (S * gas_R)) 0); [intros z; field; auto | field; auto].
  - apply (dlim_affine_at _ (S * gas_R * T / V / (S * gas_R)) 0); [intros z; field; auto | field; auto].
Qed.

(** X11: at a state on the ideal-gas law, [getdPdNi], [getdVdNi] and
    [getdTdNi] are the derivatives of [getPressure], [getVolume] and
    [getTemperature] in the mole number of species [i]. *)
Theorem IdealGas_mole_derivatives (gas_R P V T : R) (N : list R) (i : nat) :
  i < length N ->
  gas_R <> 0%R -> py_sum N <> 0%R -> P <> 0%R -> V <> 0%R -> T <> 0%R ->
  (P * V = py_sum N * gas_R * T)%R ->
  derivable_pt_lim (fun x => IdealGas.getPressure gas_R T V (list_set N i x)) (nth i N 0%R)
    (IdealGas.getdPdNi P V T (IdealGas.NList N) i) /\
  derivable_pt_lim (fun x => IdealGas.getVolume gas_R T P (list_set N i x)) (nth i N 0%R)
    (IdealGas.getdVdNi P V T (IdealGas.NList N) i) /\
  derivable_pt_lim (fun x => IdealGas.getTemperature gas_R P V (list_set N i x)) (nth i N 0%R)
    (IdealGas.getdTdNi P V T (IdealGas.NList N) i).
Proof.
  intros Hi HR HN HP HV HT Hst.
  assert (EP : P = (py_sum N * gas_R * T / V)%R)
    by (apply (Rmult_eq_reg_r V); [rewrite Hst; field; exact HV | exact HV]).
  unfold IdealGas.getPressure, IdealGas.getVolume, IdealGas.getTemperature,
    IdealGas.getdPdNi, IdealGas.getdVdNi, IdealGas.getdTdNi.
  clear Hst; subst P.
  split; [|split].
  - apply (dlim_affine_at _ (gas_R * T / V) ((py_sum N - nth i N 0%R) * gas_R * T / V));
      [intros z; rewrite py_sum_list_set by exact Hi; field; exact HV | field; auto].
  - apply (dlim_affine_at _ (gas_R * T / (py_sum N * gas_R * T / V))
             ((py_sum N - nth i N 0%R) * gas_R * T / (py_sum N * gas_R * T / V)));
      [intros z; rewrite py_sum_list_set by exact Hi; field; auto | field; auto].
  - apply (dlim_recip_at _ (py_sum N * gas_R * T / V * V) gas_R ((py_sum N - nth i N 0%R) * gas_R));
      [intros z; rewrite py_sum_list_set by exact Hi; f_equal; ring
      | replace (gas_R * nth i N 0%R + (py_sum N - nth i N 0%R) * gas_R)%R with (py_sum N * gas_R)%R by ring;
        apply Rmult_integral_contrapositive_currified; assumption
      | field; split; [exact HV | split; [|exact HN]];
        replace (gas_R * nth i N 0%R + (py_sum N - nth i N 0%R) * gas_R)%R with (py_sum N * gas_R)%R by ring;
        apply Rmult_integral_contrapositive_currified; assumption].
Qed.

(** ** Witnesses of the properties of [rmg/model.py] *)

Lemma addSpeciesToCore_keeps_invariants_witness :
  core_edge_inv one_edge_model /\ NoDup (species (edge one_edge_model)) /\
  core_edge_inv (addSpeciesToCore 2 one_edge_model) /\
  NoDup (species (edge (addSpeciesToCore 2 one_edge_model))).
Proof.
  assert (H2 : NoDup (species (edge one_edge_model))) by (simpl; constructor; [tauto | constructor]).
  split; [exact one_edge_model_inv | split; [exact H2 |]].
  exact (addSpeciesToCore_keeps_invariants 2 one_edge_model one_edge_model_inv H2).
Defined.

Lemma enlarge_inv_witness :
  core_edge_inv one_edge_model /\ NoDup (species (edge one_edge_model)) /\
  core_edge_inv (enlarge (fun _ => true) methane_db 2 one_edge_model) /\
  NoDup (species (edge (enlarge (fun _ => true) methane_db 2 one_edge_model))).
Proof.
  assert (H2 : NoDup (species (edge one_edge_model))) by (simpl; constructor; [tauto | constructor]).
  split; [exact one_edge_model_inv | split; [exact H2 |]].
  exact (enlarge_inv (fun _ => true) methane_db 2 one_edge_model one_edge_model_inv H2).
Defined.

Lemma initialize_seeds_witness :
  NoDup (species (edge CoreEdgeReactionModel_new)) /\
  let m' := initialize (fun _ => true) methane_db [CH3; H_atom; CH4] CoreEdgeReactionModel_new in
  species (core m') = species (core CoreEdgeReactionModel_new) ++ [CH3; H_atom; CH4] /\
  NoDup (species (edge m')) /\
  forall s, In s [CH3; H_atom; CH4] -> ~ In s (species (edge m')).
Proof.
  assert (H : NoDup (species (edge CoreEdgeReactionModel_new))) by (simpl; constructor).
  split; [exact H | exact (initialize_seeds (fun _ => true) methane_db [CH3; H_atom; CH4] _ H)].
Defined.

Lemma isModelValid_short_moles_witness :
  length [1%R] < length (species (core two_seeds)) /\
  isModelValid rate_10 two_seeds 1 1 1 [1%R] (stoichiometryMatrix two_seeds) 0 = Err IndexError.
Proof.
  assert (H : length [1%R] < length (species (core two_seeds))) by (vm_compute; lia).
  split; [exact H | exact (isModelValid_short_moles rate_10 two_seeds 1 1 1 [1%R] _ 0 H)].
Defined.

Lemma isModelValid_no_edge_species_witness :
  species (edge two_seeds) = [] /\ length (species (core two_seeds)) <= length [1; 1]%R /\
  isModelValid rate_10 two_seeds 100000 1 1000 [1; 1]%R (stoichiometryMatrix two_seeds) 0 = Err ValueError.
Proof.
  assert (He : species (edge two_seeds) = []) by reflexivity.
  assert (Hl : length (species (core two_seeds)) <= length [1; 1]%R) by (vm_compute; lia).
  split; [exact He | split; [exact Hl |]].
  exact (isModelValid_no_edge_species rate_10 two_seeds 100000 1 1000 [1; 1]%R 0 He Hl).
Defined.


Lemma getResidual_batch_witness :
  length [2%R] = length (species (core mixed_model)) /\ py_sum [2%R] <> 0%R /\
  (100000 <> 0)%R /\ (1000 <> 0)%R /\
  exists Ci, concentrations (species (core mixed_model)) [2%R] 1 [] = Ok Ci.
Proof.
  assert (H1 : length [2%R] = length (species (core mixed_model))) by reflexivity.
  assert (H2 : py_sum [2%R] <> 0%R) by (unfold py_sum; simpl; lra).
  assert (H3 : (100000 <> 0)%R) by lra.
  assert (H4 : (1000 <> 0)%R) by lra.
  split; [exact H1 | split; [exact H2 | split; [exact H3 | split; [exact H4 |]]]].
  destruct (getResidual_batch rate_10 mixed_model 100000 1 1000 [2%R] 0 H1 H2 H3 H4) as [Ci [HC _]].
  exists Ci; exact HC.
Defined.

(** Three moles in all ([1; 2]) with [R = 2] at [T = 5]: [P = 3], [V = 10]
    lie on the ideal-gas law. *)
Lemma IdealGas_round_trips_witness :
  (2 <> 0 /\ py_sum [1; 2] <> 0 /\ 3 <> 0 /\ 10 <> 0 /\ 5 <> 0)%R /\
  IdealGas.getPressure 2 5 (IdealGas.getVolume 2 5 3 [1; 2]%R) [1; 2]%R = 3%R.
Proof.
  assert (HN : (py_sum [1; 2] <> 0)%R) by (unfold py_sum; simpl; lra).
  assert (H : (2 <> 0 /\ py_sum [1; 2] <> 0 /\ 3 <> 0 /\ 10 <> 0 /\ 5 <> 0)%R) by (repeat split; lra).
  split; [exact H |].
  exact (proj1 (IdealGas_round_trips 2 3 10 5 [1; 2]%R ltac:(lra) HN ltac:(lra) ltac:(lra) ltac:(lra))).
Defined.

Lemma IdealGas_derivatives_witness :
  (py_sum [1; 2] <> 0 /\ 3 * 10 = py_sum [1; 2] * 2 * 5)%R /\
  derivable_pt_lim (fun v => IdealGas.getPressure 2 5 v [1; 2]%R) 10 (IdealGas.getdPdV 3 10 5 [1; 2]%R).
Proof.
  assert (HN : (py_sum [1; 2] <> 0)%R) by (unfold py_sum; simpl; lra).
  assert (Hst : (3 * 10 = py_sum [1; 2] * 2 * 5)%R) by (unfold py_sum; simpl; lra).
  split; [split; [exact HN | exact Hst] |].
  exact (proj1 (IdealGas_derivatives 2 3 10 5 [1; 2]%R ltac:(lra) HN ltac:(lra) ltac:(lra) ltac:(lra) Hst)).
Defined.

Lemma IdealGas_mole_derivatives_witness :
  (1 < length [1; 2]%R) /\ (py_sum [1; 2] <> 0 /\ 3 * 10 = py_sum [1; 2] * 2 * 5)%R /\
  derivable_pt_lim (fun x => IdealGas.getPressure 2 5 10 (list_set [1; 2]%R 1 x)) (nth 1 [1; 2]%R 0%R)
    (IdealGas.getdPdNi 3 10 5 (IdealGas.NList [1; 2]%R) 1).
Proof.
  assert (Hi : 1 < length [1; 2]%R) by (simpl; lia).
  assert (HN : (py_sum [1; 2] <> 0)%R) by (unfold py_sum; simpl; lra).
  assert (Hst : (3 * 10 = py_sum [1; 2] * 2 * 5)%R) by (unfold py_sum; simpl; lra).
  split; [exact Hi | split; [split; [exact HN | exact Hst] |]].
  exact (proj1 (IdealGas_mole_derivatives 2 3 10 5 [1; 2]%R 1 Hi
    ltac:(lra) HN ltac:(lra) ltac:(lra) ltac:(lra) Hst)).
Defined.

(** * Properties of [rmgpy/qm/reaction.py] *)

Import QMReaction.

(** X12: for two distinct labels in range, [setLimits] puts
    [value + uncertainty / 2] above the diagonal and
    [max(0, value - uncertainty / 2)] below it, whatever the order of the
    labels, and changes no other entry. *)
Theorem setLimits_entries (bm : SqMatrix) (a b : nat) (v u : R) :
  a <> b -> a < dim bm -> b < dim bm ->
  exists bm', setLimits bm a b v u = Ok bm' /\ dim bm' = dim bm /\
    forall x y, entry bm' x y =
      if Nat.eqb x (Nat.min a b) && Nat.eqb y (Nat.max a b) then (v + u / 2)%R
      else if Nat.eqb x (Nat.max a b) && Nat.eqb y (Nat.min a b) then max0 (v - u / 2)
      else entry bm x y.
Proof.
  intros Hab Ha Hb; unfold setLimits, setitem.
  assert (La : Nat.ltb a (dim bm) = true) by (apply Nat.ltb_lt; exact Ha).
  assert (Lb : Nat.ltb b (dim bm) = true) by (apply Nat.ltb_lt; exact Hb).
  destruct (Nat.ltb_spec b a) as [L|L]; rewrite ?La, ?Lb; cbn [andb bind dim mset];
    rewrite ?La, ?Lb; cbn [andb].
  - eexists; split; [reflexivity|]; split; [reflexivity|].
    rewrite Nat.min_r, Nat.max_l by lia; intros x y; unfold mset; simpl.
    destruct (Nat.eqb_spec x a), (Nat.eqb_spec y b), (Nat.eqb_spec x b), (Nat.eqb_spec y a);
      cbn [andb]; subst; try lia; reflexivity.
  - eexists; split; [reflexivity|]; split; [reflexivity|].
    rewrite Nat.min_l, Nat.max_r by lia; intros x y; unfold mset; simpl.
    destruct (Nat.eqb_spec x a), (Nat.eqb_spec y b), (Nat.eqb_spec x b), (Nat.eqb_spec y a);
      cbn [andb]; subst; try lia; reflexivity.
Qed.

(** X13: [setLimits] raises [IndexError] when a label is out of range. *)
Lemma setLimits_out_of_range (bm : SqMatrix) (a b : nat) (v u : R) :
  dim bm <= a \/ dim bm <= b -> setLimits bm a b v u = Err IndexError.
Proof.
  intros H; unfold setLimits, setitem.
  assert (E : Nat.ltb b (dim bm) && Nat.ltb a (dim bm) = false).
  { destruct H as [H|H]; [rewrite (proj2 (Nat.ltb_ge a _) H), andb_false_r
                          | rewrite (proj2 (Nat.ltb_ge b _) H)]; reflexivity. }
  destruct (Nat.ltb b a); rewrite E; reflexivity.
Qed.

(** ** [bmPreEdit] *)

Lemma lowered_refl (bm : SqMatrix) : lowered bm bm.
Proof. split; [reflexivity | split; intros; [reflexivity | lra]]. Qed.

Lemma lowered_trans (b1 b2 b3 : SqMatrix) : lowered b1 b2 -> lowered b2 b3 -> lowered b1 b3.
Proof.
  intros (D1 & U1 & L1) (D2 & U2 & L2); split; [congruence|]; split.
  - intros x y H; rewrite U2, U1 by exact H; reflexivity.
  - intros x y H; specialize (L1 x y H); specialize (L2 x y H); lra.
Qed.

Lemma lowered_upper (bm bm' : SqMatrix) (a k : nat) :
  lowered bm bm' -> a <> k -> upper bm' a k = upper bm a k.
Proof.
  intros (_ & U & _) Hak; unfold upper.
  destruct (Nat.ltb_spec a k); apply U; lia.
Qed.

Lemma preEdit_step_lowered (i j k : nat) (bm : SqMatrix) :
  j < i ->
  lowered bm (preEdit_step i j bm k) /\
  (forall x y, (x, y) <> (i, j) -> entry (preEdit_step i j bm k) x y = entry bm x y) /\
  (k <> i -> k <> j -> (entry (preEdit_step i j bm k) i j <= upper bm i k + upper bm j k - 1 / 10)%R).
Proof.
  intros Hji; unfold preEdit_step.
  destruct (Nat.eqb_spec k i) as [Eki|Eki]; [split; [apply lowered_refl | split; [reflexivity | tauto]]|].
  destruct (Nat.eqb_spec k j) as [Ekj|Ekj]; [split; [apply lowered_refl | split; [reflexivity | tauto]]|].
  destruct (Nat.eqb_spec i j) as [Eij|Eij]; [lia|]; cbn [orb].
  fold (upper bm i k); fold (upper bm j k).
  destruct (Rlt_dec (upper bm i k + upper bm j k - 1 / 10) (entry bm i j)) as [Lt|Ge].
  - split; [|split].
    + split; [reflexivity|]; split; intros x y H; unfold mset; simpl.
      * destruct (Nat.eqb_spec x i), (Nat.eqb_spec y j); cbn [andb]; try reflexivity; lia.
      * destruct (Nat.eqb_spec x i), (Nat.eqb_spec y j); cbn [andb]; subst; lra.
    + intros x y H; unfold mset; simpl.
      destruct (Nat.eqb_spec x i), (Nat.eqb_spec y j); cbn [andb]; subst; try reflexivity; congruence.
    + intros _ _; unfold mset; simpl; rewrite !Nat.eqb_refl; cbn [andb]; lra.
  - split; [apply lowered_refl | split; [reflexivity | intros _ _; lra]].
Qed.

Section PreEdit.
Variable bm0 : SqMatrix.

Lemma preEdit_good_lowered (P : nat -> nat -> Prop) (bm bm' : SqMatrix) :
  preEdit_good bm0 P bm -> lowered bm bm' -> preEdit_good bm0 P bm'.
Proof.
  intros [Hl Hb] Hl'; split; [exact (lowered_trans _ _ _ Hl Hl')|].
  intros x y k Hp Hyx Hk Hkx Hky; specialize (Hb x y k Hp Hyx Hk Hkx Hky).
  destruct Hl' as (_ & _ & L); specialize (L x y Hyx); lra.
Qed.

Lemma preEdit_k_loop (i j : nat) (ks : list nat) (bm : SqMatrix) :
  j < i -> lowered bm0 bm ->
  lowered bm (fold_left (preEdit_step i j) ks bm) /\
  forall k, In k ks -> k <> i -> k <> j ->
    (entry (fold_left (preEdit_step i j) ks bm) i j <= upper bm0 i k + upper bm0 j k - 1 / 10)%R.
Proof.
  intros Hji; revert bm; induction ks as [|k ks IH]; intros bm Hl; simpl.
  - split; [apply lowered_refl | tauto].
  - destruct (preEdit_step_lowered i j k bm Hji) as (S1 & _ & S3).
    destruct (IH (preEdit_step i j bm k) (lowered_trans _ _ _ Hl S1)) as [T1 T2].
    split; [exact (lowered_trans _ _ _ S1 T1)|].
    intros k' [Ek | Hk'] Hki Hkj; [subst k' | exact (T2 k' Hk' Hki Hkj)].
    destruct T1 as (_ & _ & T1); specialize (T1 i j Hji); specialize (S3 Hki Hkj).
    rewrite (lowered_upper _ _ i k Hl) in S3 by congruence.
    rewrite (lowered_upper _ _ j k Hl) in S3 by congruence.
    lra.
Qed.

Lemma preEdit_j_loop (P : nat -> nat -> Prop) (i : nat) (js : list nat) (bm : SqMatrix) :
  (forall j, In j js -> j < i) -> preEdit_good bm0 P bm ->
  preEdit_good bm0 (fun x y => P x y \/ (x = i /\ In y js))
    (fold_left (fun bm j =>
        if Nat.ltb i j then bm else fold_left (preEdit_step i j) (seq 0 (dim bm0)) bm) js bm).
Proof.
  revert P bm; induction js as [|j js IH]; intros P bm Hjs Hg; simpl.
  - destruct Hg as [Hl Hb]; split; [exact Hl|]; intros x y k [Hp | [_ []]]; exact (Hb x y k Hp).
  - assert (Hji : j < i) by (apply Hjs; left; reflexivity).
    rewrite (proj2 (Nat.ltb_ge i j)) by lia.
    destruct (preEdit_k_loop i j (seq 0 (dim bm0)) bm Hji (proj1 Hg)) as [K1 K2].
    assert (G1 : preEdit_good bm0 (fun x y => P x y \/ (x = i /\ y = j))
                   (fold_left (preEdit_step i j) (seq 0 (dim bm0)) bm)).
    { destruct (preEdit_good_lowered P _ _ Hg K1) as [Hl Hb]; split; [exact Hl|].
      intros x y k [Hp | [-> ->]] Hyx Hk Hkx Hky; [exact (Hb x y k Hp Hyx Hk Hkx Hky)|].
      apply K2; [apply in_seq; lia | exact Hkx | exact Hky]. }
    specialize (IH _ _ (fun j' H => Hjs j' (or_intror H)) G1).
    destruct IH as [Hl Hb]; split; [exact Hl|].
    intros x y k Hp; apply Hb; destruct Hp as [Hp | [-> [<- | Hy]]]; tauto.
Qed.

Lemma preEdit_i_loop (P : nat -> nat -> Prop) (is : list nat) (bm : SqMatrix) :
  preEdit_good bm0 P bm ->
  preEdit_good bm0 (fun x y => P x y \/ (In x is /\ y < x))
    (fold_left (fun bm i =>
        fold_left (fun bm j =>
            if Nat.ltb i j then bm else fold_left (preEdit_step i j) (seq 0 (dim bm0)) bm)
          (seq 0 i) bm) is bm).
Proof.
  revert P bm; induction is as [|i is IH]; intros P bm Hg; simpl.
  - destruct Hg as [Hl Hb]; split; [exact Hl|]; intros x y k [Hp | [[] _]]; exact (Hb x y k Hp).
  - assert (G1 := preEdit_j_loop P i (seq 0 i) bm (fun j H => proj2 (proj1 (in_seq _ _ _) H)) Hg).
    destruct (IH _ _ G1) as [Hl Hb]; split; [exact Hl|].
    intros x y k Hp; apply Hb.
    destruct Hp as [Hp | [[-> | Hx] Hyx]]; [tauto | | tauto].
    left; right; split; [reflexivity | apply in_seq; lia].
Qed.

End PreEdit.

(** X14: when [bmPreEdit] succeeds, it keeps the dimension and the upper
    limits, never raises a lower limit, and leaves every lower limit
    [bm[i,j]] at most [U(i,k) + U(j,k) - 0.1] for every third atom [k]. *)
Theorem bmPreEdit_bounds (bm : SqMatrix) (sect : list nat) (bm' : SqMatrix) :
  bmPreEdit bm sect = Ok bm' ->
  dim bm' = dim bm /\
  (forall x y, ~ y < x -> entry bm' x y = entry bm x y) /\
  (forall x y, y < x -> (entry bm' x y <= entry bm x y)%R) /\
  (forall i j k, j < i -> i < dim bm -> k < dim bm -> k <> i -> k <> j ->
     (entry bm' i j <= upper bm i k + upper bm j k - 1 / 10)%R).
Proof.
  unfold bmPreEdit; destruct (fold_except _ _ _) as [others|e]; cbn [bind]; [|discriminate].
  intros E; injection E as <-.
  assert (G0 : preEdit_good bm (fun _ _ => False) bm) by (split; [apply lowered_refl | tauto]).
  destruct (preEdit_i_loop bm _ (seq 0 (dim bm)) bm G0) as [(D & U & L) B].
  split; [exact D | split; [exact U | split; [exact L|]]].
  intros i j k Hji Hi Hk Hki Hkj; apply B; [right; split; [apply in_seq; lia | exact Hji] | exact Hji | exact Hk | exact Hki | exact Hkj].
Qed.

Lemma fold_remove_spec (sect others : list nat) :
  NoDup others ->
  ((exists r, fold_except list_remove sect others = Ok r) <->
     NoDup sect /\ forall x, In x sect -> In x others) /\
  (forall e, fold_except list_remove sect others = Err e -> e = ValueError).
Proof.
  revert others; induction sect as [|x sect IH]; intros others Hnd; simpl.
  - split; [split; [intros _; split; [constructor | tauto] | intros _; eexists; reflexivity] | discriminate].
  - unfold list_remove.
    destruct (existsb (Nat.eqb x) others) eqn:E; cbn [bind].
    + assert (Hx : In x others) by (apply spec_in_iff; exact E).
      destruct (IH (remove_first Nat.eqb x others) (remove_first_NoDup Nat.eqb x _ Hnd)) as [I1 I2].
      split; [|exact I2]; rewrite I1; split.
      * intros [N H]; split; [constructor; [|exact N]|].
        -- intros Hin; exact (remove_first_nodup Nat.eqb Nat.eqb_eq x _ Hnd (H x Hin)).
        -- intros y [<- | Hy]; [exact Hx | exact (remove_first_in Nat.eqb _ _ _ (H y Hy))].
      * intros [N H]; apply NoDup_cons_iff in N as [Nx N]; split; [exact N|].
        intros y Hy; apply (remove_first_other Nat.eqb Nat.eqb_eq); [apply H; right; exact Hy|].
        intros ->; exact (Nx Hy).
    + assert (Hx : ~ In x others) by (rewrite <- spec_in_iff; unfold spec_in; congruence).
      split; [split; [intros [r Hr]; discriminate | intros [_ H]; exfalso; apply Hx, H; left; reflexivity]|].
      intros e He; injection He as <-; reflexivity.
Qed.

(** X15: [bmPreEdit] succeeds exactly when [sect] has no duplicates and only
    atom indices in range; otherwise it raises [ValueError]. *)
Theorem bmPreEdit_sect (bm : SqMatrix) (sect : list nat) :
  ((exists bm', bmPreEdit bm sect = Ok bm') <-> NoDup sect /\ forall idx, In idx sect -> idx < dim bm) /\
  (forall e, bmPreEdit bm sect = Err e -> e = ValueError).
Proof.
  destruct (fold_remove_spec sect (seq 0 (dim bm)) (seq_NoDup _ _)) as [F1 F2].
  unfold bmPreEdit; split; [split|].
    + intros [bm' Hb]; destruct (fold_except _ _ _) as [r|e] eqn:E; [|discriminate].
      destruct (proj1 F1 (ex_intro _ r eq_refl)) as [N H]; split; [exact N|].
      intros idx Hi; specialize (H idx Hi); apply in_seq in H; lia.
    + intros [N H]; destruct (proj2 F1) as [r Hr];
        [split; [exact N | intros x Hx; apply in_seq; specialize (H x Hx); lia]|].
      rewrite Hr; eexists; reflexivity.
  + intros e; destruct (fold_except _ _ _) as [r|e'] eqn:E; cbn [bind]; [discriminate|].
    intros H; injection H as <-; exact (F2 e' eq_refl).
Qed.

(** ** Witnesses of the properties of [rmgpy/qm/reaction.py] *)

(** A bounds matrix of [n] atoms with upper limits [u] and lower limits [l]. *)
Definition const_bm (n : nat) (u l : R) : SqMatrix :=
  mkSq n (fun x y => if Nat.ltb x y then u else l).

Lemma setLimits_entries_witness :
  (1 <> 0 /\ 1 < dim (const_bm 2 0 0) /\ 0 < dim (const_bm 2 0 0)) /\
  exists bm', setLimits (const_bm 2 0 0) 1 0 3 1 = Ok bm' /\ entry bm' 0 1 = (3 + 1 / 2)%R.
Proof.
  assert (H : 1 <> 0 /\ 1 < dim (const_bm 2 0 0) /\ 0 < dim (const_bm 2 0 0)) by (simpl; lia).
  split; [exact H |].
  destruct H as (H1 & H2 & H3).
  destruct (setLimits_entries (const_bm 2 0 0) 1 0 3 1 H1 H2 H3) as (bm' & E & _ & Hent).
  exists bm'; split; [exact E |]; rewrite Hent; reflexivity.
Defined.

Lemma setLimits_out_of_range_witness :
  (dim (const_bm 2 0 0) <= 2 \/ dim (const_bm 2 0 0) <= 0) /\
  setLimits (const_bm 2 0 0) 2 0 3 1 = Err IndexError.
Proof.
  assert (H : dim (const_bm 2 0 0) <= 2 \/ dim (const_bm 2 0 0) <= 0) by (left; simpl; lia).
  split; [exact H | exact (setLimits_out_of_range (const_bm 2 0 0) 2 0 3 1 H)].
Defined.

(** Three atoms, upper limits 1, lower limits 5: [bmPreEdit] lowers each
    lower limit to at most [1 + 1 - 0.1]. *)
Lemma bmPreEdit_bounds_witness :
  exists bm', bmPreEdit (const_bm 3 1 5) [0] = Ok bm' /\ (entry bm' 2 1 <= 1 + 1 - 1 / 10)%R.
Proof.
  eexists; split; [reflexivity |].
  destruct (bmPreEdit_bounds (const_bm 3 1 5) [0] _ eq_refl) as (_ & _ & _ & B).
  exact (B 2 1 0 ltac:(lia) ltac:(simpl; lia) ltac:(simpl; lia) ltac:(lia) ltac:(lia)).
Defined.
